(** * Tienda Aurelion - Consultor de Documentacion: a verification development

    A shallow embedding of [ProgramaInteractivo.py] and the proofs of its
    documented properties.

    Conventions of the embedding.
    - A Python [str] is a list of characters, [str := list ascii]; a value of
      [ascii] stands for the code point of the same number, so the texts
      covered are those over U+0000..U+00FF.  On that range [str.splitlines],
      [str.strip], [str.lower], the [\s] class and the case-insensitive
      comparison of [re] are written out in full below.
    - A Python [int] is a [Z]; [len] is [Z.of_nat (length _)].
    - Code that can raise returns an [outcome]; loops that Python runs with
      [while] take fuel, and running out of it is the outcome [OutOfFuel].
    - Code that talks to the user runs on a [console]: the lines typed, in
      order, and what has been printed and asked so far.  [ask_int] takes
      one line typed for each turn of its loop, so it needs no fuel; when no
      line is left, [input] raises [EOFError].
    - [os.path] is [posixpath]. *)

From Stdlib Require Import Ascii String.
From Stdlib Require Import ZArith List Bool Lia Sorted Permutation DecimalString.
Import ListNotations.

Local Open Scope Z_scope.
Local Open Scope list_scope.

(** ** Python strings *)

Definition str : Type := list ascii.

(** String literals of the source, as [str]. *)
Definition u (s : string) : str := list_ascii_of_string s.

Definition len {A : Type} (l : list A) : Z := Z.of_nat (length l).

(** The line feed, a one-character string. *)
Definition nl : str := ["010"%char].

Module PyStr.

Definition code (c : ascii) : Z := Z.of_N (N_of_ascii c).
Definition chr (n : Z) : ascii := ascii_of_N (Z.to_N n).

Definition char_eqb (a b : ascii) : bool := Ascii.eqb a b.

(** Line boundaries of [str.splitlines]: LF, VT, FF, CR, FS, GS, RS, NEL. *)
Definition is_linebreak (c : ascii) : bool :=
  let n := code c in
  (n =? 10) || (n =? 11) || (n =? 12) || (n =? 13) ||
  (n =? 28) || (n =? 29) || (n =? 30) || (n =? 133).

(** [str.isspace] on one character, which is also the class [\s] of a
    [str] pattern: TAB..CR, FS..US, SPACE, NEL, NBSP. *)
Definition isspace (c : ascii) : bool :=
  let n := code c in
  ((9 <=? n) && (n <=? 13)) || ((28 <=? n) && (n <=? 32)) ||
  (n =? 133) || (n =? 160).

(** [str.lower] on one character: A-Z, and the Latin-1 capitals
    U+00C0..U+00DE but the multiplication sign U+00D7. *)
Definition lower_char (c : ascii) : ascii :=
  let n := code c in
  if ((65 <=? n) && (n <=? 90)) ||
     ((192 <=? n) && (n <=? 222) && negb (n =? 215))
  then chr (n + 32) else c.

Definition lower (s : str) : str := map lower_char s.

Fixpoint dropwhile {A : Type} (f : A -> bool) (l : list A) : list A :=
  match l with
  | [] => []
  | x :: l' => if f x then dropwhile f l' else l
  end.

Fixpoint takewhile {A : Type} (f : A -> bool) (l : list A) : list A :=
  match l with
  | [] => []
  | x :: l' => if f x then x :: takewhile f l' else []
  end.

Definition lstrip (s : str) : str := dropwhile isspace s.
Definition rstrip (s : str) : str := rev (dropwhile isspace (rev s)).
Definition strip (s : str) : str := rstrip (lstrip s).

Fixpoint str_eqb (a b : str) : bool :=
  match a, b with
  | [], [] => true
  | x :: a', y :: b' => char_eqb x y && str_eqb a' b'
  | _, _ => false
  end.

(** [s.startswith(p)]. *)
Fixpoint startswith (p s : str) : bool :=
  match p, s with
  | [], _ => true
  | x :: p', y :: s' => char_eqb x y && startswith p' s'
  | _ :: _, [] => false
  end.

(** [needle in hay]. *)
Fixpoint contains (needle hay : str) : bool :=
  startswith needle hay ||
  match hay with
  | [] => false
  | _ :: hay' => contains needle hay'
  end.

(** [sep.join(parts)]. *)
Fixpoint join (sep : str) (parts : list str) : str :=
  match parts with
  | [] => []
  | [p] => p
  | p :: rest => p ++ sep ++ join sep rest
  end.

(** [str.splitlines()]: [cur] is the line being read.  CR LF is one
    boundary; a boundary at the very end opens no further line. *)
Fixpoint splitlines_from (cur s : str) : list str :=
  match s with
  | [] => match cur with [] => [] | _ => [cur] end
  | c :: rest =>
      if is_linebreak c then
        match rest with
        | d :: rest' =>
            if char_eqb c "013"%char && char_eqb d "010"%char
            then cur :: splitlines_from [] rest'
            else cur :: splitlines_from [] rest
        | [] => cur :: splitlines_from [] rest
        end
      else splitlines_from (cur ++ [c]) rest
  end.

Definition splitlines (s : str) : list str := splitlines_from [] s.

(** [enumerate(l, start)]. *)
Fixpoint enumerate {A : Type} (start : Z) (l : list A) : list (Z * A) :=
  match l with
  | [] => []
  | x :: l' => (start, x) :: enumerate (start + 1) l'
  end.

(** One bound of a slice [l[a:b]] on a sequence of length [n]. *)
Definition slice_bound (n i : Z) : Z :=
  if i <? 0 then Z.max 0 (i + n) else Z.min i n.

(** [l[a:b]]. *)
Definition slice {A : Type} (l : list A) (a b : Z) : list A :=
  let lo := slice_bound (len l) a in
  let hi := slice_bound (len l) b in
  firstn (Z.to_nat (hi - lo)) (skipn (Z.to_nat lo) l).

(** [range(a, b)]. *)
Definition range (a b : Z) : list Z :=
  map (fun k => a + Z.of_nat k) (seq 0 (Z.to_nat (b - a))).

(** Order of [str]: lexicographic on code points. *)
Fixpoint str_leb (a b : str) : bool :=
  match a, b with
  | [], _ => true
  | _ :: _, [] => false
  | x :: a', y :: b' =>
      if code x <? code y then true
      else if code y <? code x then false
      else str_leb a' b'
  end.

Fixpoint insert_sorted (x : str) (l : list str) : list str :=
  match l with
  | [] => [x]
  | y :: l' => if str_leb x y then x :: l else y :: insert_sorted x l'
  end.

(** [sorted(l)] on strings. *)
Definition sorted (l : list str) : list str :=
  fold_right insert_sorted [] l.

(** [s.rfind(c)] for a one-character [c]; [-1] when absent. *)
Fixpoint rfind_from (c : ascii) (s : str) (i best : Z) : Z :=
  match s with
  | [] => best
  | x :: s' => rfind_from c s' (i + 1) (if char_eqb x c then i else best)
  end.

Definition rfind (c : ascii) (s : str) : Z := rfind_from c s 0 (-1).

End PyStr.

(** ** The [re] calls of the program *)

Module PyRe.
Import PyStr.

(** A literal of the pattern against a character of the text under
    [re.IGNORECASE]: equal once both are lowered. *)
Definition ci_eqb (p t : ascii) : bool :=
  char_eqb (lower_char p) (lower_char t).

(** The literal pattern [pat] matched at the start of [s] under
    [re.IGNORECASE]; the result is [m.group(0)], the text as it stands
    in [s]. *)
Fixpoint match_literal_ci (pat s : str) : option str :=
  match pat, s with
  | [], _ => Some []
  | p :: pat', t :: s' =>
      if ci_eqb p t
      then option_map (cons t) (match_literal_ci pat' s')
      else None
  | _ :: _, [] => None
  end.

(** [re.sub(re.escape(pat), repl, s, flags=re.IGNORECASE)].  The text is
    scanned from the left; a match is replaced and the scan goes on behind
    it, [skip] counting the characters of the match still to pass; an empty
    match is replaced and the next character copied. *)
Fixpoint sub_literal_ci_from (pat : str) (repl : str -> str)
         (skip : nat) (s : str) : str :=
  match s with
  | [] =>
      match skip, match_literal_ci pat [] with
      | O, Some m => repl m
      | _, _ => []
      end
  | c :: s' =>
      match skip with
      | S k => sub_literal_ci_from pat repl k s'
      | O =>
          match match_literal_ci pat s with
          | Some [] => repl [] ++ c :: sub_literal_ci_from pat repl 0 s'
          | Some (x :: m) =>
              repl (x :: m) ++ sub_literal_ci_from pat repl (length m) s'
          | None => c :: sub_literal_ci_from pat repl 0 s'
          end
      end
  end.

Definition sub_literal_ci (pat : str) (repl : str -> str) (s : str) : str :=
  sub_literal_ci_from pat repl 0 s.

Definition is_hash (c : ascii) : bool := char_eqb c "#"%char.
Definition not_newline (c : ascii) : bool := negb (char_eqb c "010"%char).

(** The tail of the header pattern: [\s+], a greedy run of at least one
    [\s], then group 2, a greedy run of [.], the characters up to the
    first LF. *)
Definition match_spaces_rest (s : str) : option str :=
  match takewhile isspace s with
  | [] => None
  | ws => Some (takewhile not_newline (skipn (length ws) s))
  end.

(** [#{1,n}] then the tail, the longest run of [#] first, then shorter
    ones as the matcher backtracks.  The result is (group 1, group 2). *)
Fixpoint match_hashes (n : nat) (s : str) : option (str * str) :=
  match n with
  | O => None
  | S k =>
      let g1 := firstn n s in
      if (length g1 =? n)%nat && forallb is_hash g1 then
        match match_spaces_rest (skipn n s) with
        | Some g2 => Some (g1, g2)
        | None => match_hashes k s
        end
      else match_hashes k s
  end.

(** [re.match] of the header pattern of [build_toc] on [s]: group 1 is
    [#{1,6}] at the start of [s]. *)
Definition match_header (s : str) : option (str * str) := match_hashes 6 s.

End PyRe.

(** ** [os.path] and the directory read by [os.listdir] *)

Module OsPath.
Import PyStr.

Definition sep : ascii := "/"%char.
Definition extsep : ascii := "."%char.

Definition endswith_sep (p : str) : bool :=
  match rev p with
  | c :: _ => char_eqb c sep
  | [] => false
  end.

(** [os.path.join(a, b)]. *)
Definition join (a b : str) : str :=
  if startswith [sep] b then b
  else if match a with [] => true | _ => endswith_sep a end then a ++ b
  else a ++ [sep] ++ b.

(** [os.path.basename(p)]. *)
Definition basename (p : str) : str :=
  skipn (Z.to_nat (rfind sep p + 1)) p.

(** [os.path.splitext(p)]: the extension starts at the last dot, when that
    dot is in the last component and some character before it, in that
    component, is not a dot. *)
Definition splitext (p : str) : str * str :=
  let sepIndex := rfind sep p in
  let dotIndex := rfind extsep p in
  if (sepIndex <? dotIndex) &&
     existsb (fun c => negb (char_eqb c extsep)) (slice p (sepIndex + 1) dotIndex)
  then (slice p 0 dotIndex, skipn (Z.to_nat dotIndex) p)
  else (p, []).

(** What a name of the directory is. *)
Inductive node : Type :=
| Regular                      (* a regular file *)
| Directory                    (* a subdirectory *)
| Special                      (* a device, a pipe, a socket *)
| Symlink (target : node)      (* a symbolic link and what it points to *)
| Dangling.                    (* a symbolic link to nothing *)

(** [stat] follows symbolic links, and so does [os.path.isfile]. *)
Fixpoint isfile_node (n : node) : bool :=
  match n with
  | Regular => true
  | Symlink t => isfile_node t
  | Directory | Special | Dangling => false
  end.

(** The directory [root]: its names, in the order [os.listdir] gives
    them, each with what it is. *)
Definition directory : Type := list (str * node).

Definition listdir (d : directory) : list str := map fst d.

(** [os.path.isfile(p)] for a path [p] into the directory [root]. *)
Definition isfile (root : str) (d : directory) (p : str) : bool :=
  match find (fun e => str_eqb (join root (fst e)) p) d with
  | Some (_, n) => isfile_node n
  | None => false
  end.

End OsPath.

(** ** Outcomes of code that can raise *)

Inductive exn : Type := OSError | IndexError.

Inductive outcome (A : Type) : Type :=
| Ok (a : A)
| Raise (e : exn)
| OutOfFuel.

Arguments Ok {A} a.
Arguments Raise {A} e.
Arguments OutOfFuel {A}.

Definition bind {A B : Type} (m : outcome A) (k : A -> outcome B) : outcome B :=
  match m with
  | Ok a => k a
  | Raise e => Raise e
  | OutOfFuel => OutOfFuel
  end.

Notation "x <- m ;; k" := (bind m (fun x => k))
  (at level 61, m at next level, right associativity).

(** [for x in l: acc = body(acc, x)], where the body can raise. *)
Fixpoint for_each {A S : Type} (l : list A) (body : S -> A -> outcome S)
         (acc : S) : outcome S :=
  match l with
  | [] => Ok acc
  | x :: l' => acc' <- body acc x ;; for_each l' body acc'
  end.

(** [l[i]]: an index from the end when negative, [IndexError] out of range. *)
Definition getitem {A : Type} (l : list A) (i : Z) : outcome A :=
  let j := if i <? 0 then i + len l else i in
  if j <? 0 then Raise IndexError
  else match nth_error l (Z.to_nat j) with
       | Some x => Ok x
       | None => Raise IndexError
       end.

(** [x in s] for a set of strings. *)
Definition mem (x : str) (s : list str) : bool := existsb (PyStr.str_eqb x) s.

(** ** The program *)

Import PyStr.

Definition MD_EXT : list str := [u ".md"; u ".markdown"].
Definition IMG_EXT : list str := [u ".png"; u ".jpg"; u ".jpeg"; u ".gif"; u ".svg"].

(** The files [read_text] can be asked for.  [Some t]: the file opens and
    reads as the text [t]; with [errors="replace"] decoding raises nothing,
    malformed bytes come out as a replacement character of [t].  [None]:
    [open] or [read] raises [OSError] (no such file, no permission, ...). *)
Definition filesystem : Type := str -> option str.

Definition read_text (fs : filesystem) (path : str) : outcome str :=
  match fs path with
  | Some t => Ok t
  | None => Raise OSError
  end.

Definition list_files (root : str) (d : OsPath.directory) : list str * list str :=
  fold_left
    (fun (acc : list str * list str) (name : str) =>
       let '(mds, imgs) := acc in
       let p := OsPath.join root name in
       if negb (OsPath.isfile root d p) then (mds, imgs)
       else
         let ext := lower (snd (OsPath.splitext name)) in
         if mem ext MD_EXT then (mds ++ [p], imgs)
         else if mem ext IMG_EXT then (mds, imgs ++ [p])
         else (mds, imgs))
    (sorted (OsPath.listdir d))
    ([], []).

Definition build_toc (md_text : str) : list (Z * str * Z) :=
  fold_left
    (fun (toc : list (Z * str * Z)) (il : Z * str) =>
       let '(i, line) := il in
       match PyRe.match_header (strip line) with
       | Some (g1, g2) =>
           let level := len g1 in
           let title := strip g2 in
           toc ++ [(level, title, i)]
       | None => toc
       end)
    (enumerate 1 (splitlines md_text))
    [].

(** What one turn of the loop of [paginate] puts on the terminal: the
    title and its rule when there is a title, the lines printed, and
    whether it then waits for Enter. *)
Record screen : Type := Screen {
  heading : option str;
  body : list str;
  waits : bool
}.

Section Paginator.

(** [textwrap.wrap(line, width=cols)], of the standard library. *)
Variable wrap : str -> Z -> list str.

(** [get_terminal_size(fallback=(100, 30))]: columns and rows. *)
Variable terminal : Z * Z.

(** [textwrap.wrap(raw_line, width=cols)], or one empty line when that
    is the empty list. *)
Definition wrapped_or_blank (cols : Z) (raw_line : str) : list str :=
  match wrap raw_line cols with
  | [] => [[]]
  | wrapped => wrapped
  end.

Definition title_heading (title : str) : option str :=
  match title with
  | [] => None
  | _ => Some (title ++ nl ++ repeat "-"%char (Z.to_nat (len title + 2)))
  end.

(** The loop [while idx < total]. *)
Fixpoint paginate_loop (fuel : nat) (title : str) (lines : list str)
         (rows total idx : Z) : outcome (list screen) :=
  if idx <? total then
    match fuel with
    | O => OutOfFuel
    | S fuel' =>
        let end_ := Z.min (idx + rows) total in
        printed <- for_each (range idx end_)
                     (fun out i => l <- getitem lines i ;; Ok (out ++ [l])) [] ;;
        let idx := end_ in
        rest <- paginate_loop fuel' title lines rows total idx ;;
        Ok (Screen (title_heading title) printed (idx <? total) :: rest)
    end
  else Ok [].

Definition paginate (text title : str) (width height : Z)
  : outcome (list screen) :=
  let '(cols, rows) :=
    if (width <=? 0) || (height <=? 0) then terminal else (width, height) in
  let rows := Z.max 10 (rows - 3) in
  let lines :=
    fold_left (fun lines raw_line => lines ++ wrapped_or_blank cols raw_line)
              (splitlines text) [] in
  let total := len lines in
  paginate_loop (length lines) title lines rows total 0.

End Paginator.

(** The replacement of [search_all]: the match between brackets. *)
Definition bracket (m : str) : str := u "[" ++ m ++ u "]".

Definition search_all (fs : filesystem) (md_paths : list str) (query : str)
           (context : Z) : outcome (list (str * Z * str)) :=
  let query_low := lower query in
  for_each md_paths
    (fun results p =>
       text <- read_text fs p ;;
       let lines := splitlines text in
       Ok (fold_left
             (fun (results : list (str * Z * str)) (il : Z * str) =>
                let '(i, line) := il in
                if contains query_low (lower line) then
                  let start := Z.max 1 (i - context) in
                  let end_ := Z.min (len lines) (i + context) in
                  let snippet := join nl (slice lines (start - 1) end_) in
                  let snippet := PyRe.sub_literal_ci query bracket snippet in
                  results ++ [(p, i, snippet)]
                else results)
             (enumerate 1 lines)
             results))
    [].

(** ** The documented behaviour, in the words of the specification *)

(** A header line: trimmed of its surrounding whitespace, the line starts
    with 1 to 6 [#], next comes a whitespace character, and the text that
    remains is not empty.  The level is the number of leading [#], the title
    the remainder trimmed. *)
Definition header_of_line (line : str) : option (Z * str) :=
  let t := strip line in
  let hashes := takewhile PyRe.is_hash t in
  let remainder := skipn (length hashes) t in
  let title := strip remainder in
  if (1 <=? len hashes) && (len hashes <=? 6)
     && match remainder with c :: _ => isspace c | [] => false end
     && negb (str_eqb title [])
  then Some (len hashes, title)
  else None.

(** The entry of the table of contents a numbered line gives, if any. *)
Definition toc_entry (il : Z * str) : list (Z * str * Z) :=
  match header_of_line (snd il) with
  | Some (level, title) => [(level, title, fst il)]
  | None => []
  end.

(** A string without any line boundary, as the lines of [splitlines] are. *)
Definition break_free (line : str) : Prop :=
  forallb (fun c => negb (is_linebreak c)) line = true.

(** A string that does not end in whitespace. *)
Definition ends_nonspace (s : str) : Prop :=
  match rev s with
  | [] => True
  | c :: _ => isspace c = false
  end.

(** The lines left on a page for the text: the rows but 3, and 10 at the
    least. *)
Definition body_height (rows : Z) : nat := Z.to_nat (Z.max 10 (rows - 3)).

(** The wrapped form of a text: each source line wrapped on its own, a line
    that wraps to nothing standing as one empty line, all in source order. *)
Definition wrapped_lines (wrap : str -> Z -> list str) (cols : Z) (text : str)
  : list str :=
  flat_map (wrapped_or_blank wrap cols) (splitlines text).

(** The consecutive chunks of [n] elements of a list: the first [n], then
    the chunks of the rest. *)
Fixpoint chunks_upto {A : Type} (fuel n : nat) (l : list A) : list (list A) :=
  match fuel, l with
  | _, [] => []
  | O, _ :: _ => []
  | S fuel', _ :: _ => firstn n l :: chunks_upto fuel' n (skipn n l)
  end.

Definition chunks {A : Type} (n : nat) (l : list A) : list (list A) :=
  chunks_upto (length l) n l.

(** Every chunk has [n] elements, but the last, which has 1 to [n]. *)
Fixpoint full_but_last {A : Type} (n : nat) (pages : list (list A)) : Prop :=
  match pages with
  | [] => True
  | [p] => (1 <= length p <= n)%nat
  | p :: rest => length p = n /\ full_but_last n rest
  end.

(** A [wrap] to run [paginate] with: what [textwrap.wrap] gives for a line
    that fits the width and has no whitespace but single spaces between its
    words, and for a blank line. *)
Definition wrap_fitting (line : str) (cols : Z) : list str :=
  if forallb isspace line then [] else [line].

Definition sample_text : str :=
  u "Tienda Aurelion" ++ nl ++ nl ++ u "Consultor de documentos" ++ nl.

(** Twelve numbered lines. *)
Definition twelve_lines : str :=
  join nl (map (fun c => [c]) (list_ascii_of_string "abcdefghijkl")).

(** A document [read_text] can read. *)
Definition readable (fs : filesystem) (p : str) : Prop := fs p <> None.

(** The lines of a document. *)
Definition document_lines (fs : filesystem) (p : str) : list str :=
  match fs p with
  | Some text => splitlines text
  | None => []
  end.

(** Line number [i] of a document, counted from 1. *)
Definition line_at (lines : list str) (i : Z) : option str :=
  if i <? 1 then None else nth_error lines (Z.to_nat (i - 1)).

(** A line matches when the lowered query is a substring of the lowered
    line. *)
Definition line_matches (query line : str) : bool :=
  contains (lower query) (lower line).

(** The numbers of the matching lines of a document, in ascending order. *)
Definition matching_line_numbers (query : str) (lines : list str) : list Z :=
  filter (fun i => match line_at lines i with
                   | Some line => line_matches query line
                   | None => false
                   end)
         (range 1 (len lines + 1)).

(** The lines numbered [a] to [b], both included, in their order. *)
Definition lines_between (lines : list str) (a b : Z) : list str :=
  flat_map (fun k => match line_at lines k with
                     | Some line => [line]
                     | None => []
                     end)
           (range a (b + 1)).

(** The context window of a match on line [i]: the lines from
    [i - context] to [i + context], clipped to the document. *)
Definition context_window (lines : list str) (i context : Z) : list str :=
  lines_between lines (Z.max 1 (i - context)) (Z.min (len lines) (i + context)).

(** The query occurs in the text at offset [k], whatever the case: there
    the pattern of [search_all], the query taken literally, matches under
    [re.IGNORECASE], and what it matches is the text as it stands. *)
Definition occurs_at (query text : str) (k : nat) : Prop :=
  (k + length query <= length text)%nat
  /\ PyRe.match_literal_ci query (skipn k text)
     = Some (firstn (length query) (skipn k text)).

(** Two documents, and a name that cannot be read. *)
Definition sample_fs : filesystem :=
  fun p =>
    if str_eqb p (u "guia.md")
    then Some (u "The Cat sat" ++ nl ++ u "on the mat" ++ nl ++ u "concat cAt")
    else if str_eqb p (u "notas.md")
    then Some (u "catalogo" ++ nl ++ nl ++ u "fin")
    else None.

(** The snippet of a match on line [i], as [search_all] builds it. *)
Definition snippet_at (query : str) (context : Z) (lines : list str) (i : Z)
  : str :=
  PyRe.sub_literal_ci query bracket
    (join nl (slice lines (Z.max 1 (i - context) - 1)
                          (Z.min (len lines) (i + context)))).

(** The results one document adds: one per matching line, in line order. *)
Definition document_results (query : str) (context : Z) (p : str)
           (lines : list str) : list (str * Z * str) :=
  map (fun i => (p, i, snippet_at query context lines i))
      (matching_line_numbers query lines).

(** Where a result is: its document and its line number. *)
Definition result_place (r : str * Z * str) : str * Z := fst r.

(** The text [m] stands between brackets somewhere in [out]. *)
Definition bracketed_in (out m : str) : Prop :=
  exists pre post, out = pre ++ bracket m ++ post.

(** One document of one line. *)
Definition cat_fs : filesystem :=
  fun p => if str_eqb p (u "gato.md") then Some (u "The Cat sat") else None.

(** The order of file names: by code point, capitals before small letters. *)
Definition str_le (a b : str) : Prop := str_leb a b = true.

(** A name of a directory holds no separator. *)
Definition slash_free (name : str) : Prop :=
  forallb (fun c => negb (char_eqb c OsPath.sep)) name = true.

(** A directory whose names hold no separator and differ from each other. *)
Definition well_formed (d : OsPath.directory) : Prop :=
  Forall slash_free (OsPath.listdir d) /\ NoDup (OsPath.listdir d).

(** The extension [list_files] tests: that of [os.path.splitext], lowered. *)
Definition lowered_ext (name : str) : str := lower (snd (OsPath.splitext name)).

(** A directory with a Markdown file, a picture, a subdirectory, a text
    file, and two symbolic links, one to a regular file and one to a
    directory. *)
Definition sample_dir : OsPath.directory :=
  [ (u "indice.MD", OsPath.Regular);
    (u "Logo.png", OsPath.Regular);
    (u "viejo.md", OsPath.Directory);
    (u "notas.txt", OsPath.Regular);
    (u "enlace.md", OsPath.Symlink OsPath.Regular);
    (u "carpeta.md", OsPath.Symlink OsPath.Directory);
    (u "apuntes.markdown", OsPath.Regular) ].

(** A name [list_files] lists as a Markdown document, as an image. *)
Definition is_markdown (root : str) (d : OsPath.directory) (name : str) : bool :=
  OsPath.isfile root d (OsPath.join root name) && mem (lowered_ext name) MD_EXT.

Definition is_image (root : str) (d : OsPath.directory) (name : str) : bool :=
  OsPath.isfile root d (OsPath.join root name)
  && negb (mem (lowered_ext name) MD_EXT) && mem (lowered_ext name) IMG_EXT.

(** ** The console: [ask_int], [pick_from_list], [open_doc_paged] *)

(** What the program does on the terminal: a [print] and its text, an
    [input] and its prompt. *)
Inductive event : Type :=
| Printed (text : str)
| Asked (prompt : str).

(** The terminal: the lines the user types, not read yet, and what the
    program has put on it so far. *)
Record console : Type := Console {
  typed : list str;
  shown : list event
}.

(** [input] raises [EOFError] when there is no line left to read; [int]
    raises [ValueError]. *)
Inductive console_error : Type := EOFError | ValueError.

Inductive reply (A : Type) : Type :=
| Answered (a : A)
| Failed (e : console_error).

Arguments Answered {A} a.
Arguments Failed {A} e.

(** [str.isdigit] on one character: 0-9 and the superscripts 2, 3 and 1. *)
Definition isdigit_char (c : ascii) : bool :=
  let n := code c in
  ((48 <=? n) && (n <=? 57)) || (n =? 178) || (n =? 179) || (n =? 185).

(** [s.isdigit()]. *)
Definition isdigit (s : str) : bool :=
  match s with
  | [] => false
  | _ => forallb isdigit_char s
  end.

(** The decimal digits, those [int] reads. *)
Definition isdecimal_char (c : ascii) : bool :=
  let n := code c in (48 <=? n) && (n <=? 57).

(** [str(n)] for an [int]. *)
Definition str_of_int (n : Z) : str := u (NilZero.string_of_int (Z.to_int n)).

(** [str(l)] for a list of [int]. *)
Definition str_of_int_list (l : list Z) : str :=
  u "[" ++ join (u ", ") (map str_of_int l) ++ u "]".

(** [range(a, b)] as [list(range(a, b))]. *)
Definition list_range (a b : Z) : list Z := range a b.

Section Console.

(** [sys.get_int_max_str_digits()]: 4300 unless set otherwise, 0 for no
    limit. *)
Variable int_max_str_digits : Z.

(** [int(s)] for an [s] with [s.isdigit()]: the value of the decimal
    digits; [None] is [ValueError], raised for a digit that is no decimal
    digit and for more digits than the limit allows. *)
Definition int_of_digits (s : str) : option Z :=
  if forallb isdecimal_char s
     && negb ((0 <? int_max_str_digits) && (int_max_str_digits <? len s))
  then Some (fold_left (fun n c => 10 * n + (code c - 48)) s 0)
  else None.

(** The message of [ask_int] for a line it does not take. *)
Definition invalid_option_message (valid : list Z) : str :=
  u "Opci" ++ ["243"%char] ++ u "n inv" ++ ["225"%char] ++ u "lida. Opciones v"
    ++ ["225"%char] ++ u "lidas: " ++ str_of_int_list valid.

(** [ask_int]: one turn of [while True] for each line typed. *)
Fixpoint ask_int_loop (prompt : str) (valid : list Z) (typed : list str)
         (shown : list event) : reply Z * console :=
  match typed with
  | [] => (Failed EOFError, Console [] (shown ++ [Asked prompt]))
  | line :: typed' =>
      let shown := shown ++ [Asked prompt] in
      let val := strip line in
      if isdigit val then
        match int_of_digits val with
        | None => (Failed ValueError, Console typed' shown)
        | Some n =>
            if existsb (Z.eqb n) valid
            then (Answered n, Console typed' shown)
            else ask_int_loop prompt valid typed'
                   (shown ++ [Printed (invalid_option_message valid)])
        end
      else ask_int_loop prompt valid typed'
             (shown ++ [Printed (invalid_option_message valid)])
  end.

Definition ask_int (prompt : str) (valid : list Z) (c : console)
  : reply Z * console :=
  ask_int_loop prompt valid (typed c) (shown c).

Definition pick_prompt : str := u "Elija n" ++ ["250"%char] ++ u "mero: ".

Definition pick_from_list (items : list str) (title : str) (c : console)
  : reply Z * console :=
  match items with
  | [] =>
      (Answered (-1),
       Console (typed c) (shown c ++ [Printed (u "No hay elementos disponibles.")]))
  | _ =>
      let shown := shown c ++ [Printed title] in
      let shown :=
        fold_left
          (fun shown (ip : Z * str) =>
             let '(i, p) := ip in
             shown ++ [Printed (u "  " ++ str_of_int i ++ u ") " ++ OsPath.basename p)])
          (enumerate 1 items) shown in
      match ask_int pick_prompt (list_range 1 (len items + 1))
                    (Console (typed c) shown) with
      | (Answered n, c') => (Answered (n - 1), c')
      | (Failed e, c') => (Failed e, c')
      end
  end.

End Console.

(** [open_doc_paged]: [paginate] is called without a viewport. *)
Definition open_doc_paged (wrap : str -> Z -> list str) (terminal : Z * Z)
           (fs : filesystem) (md_path : str) : outcome (list screen) :=
  text <- read_text fs md_path ;;
  paginate wrap terminal text (OsPath.basename md_path) 0 0.

(** A string that does not start with whitespace. *)
Definition starts_nonspace (s : str) : Prop :=
  match s with
  | [] => True
  | c :: _ => isspace c = false
  end.

(** The document of the table of contents examples. *)
Definition sample_markdown : str :=
  u "# Tienda" ++ nl ++ u "texto" ++ nl ++ u "  ## Ventas  " ++ nl ++ u "#sin espacio".

(** The line is a header. *)
Definition is_header (line : str) : bool :=
  match header_of_line line with
  | Some _ => true
  | None => false
  end.

(** Every screen but the last waits for Enter; the last one does not. *)
Fixpoint waits_but_last (screens : list screen) : Prop :=
  match screens with
  | [] => True
  | [s] => waits s = false
  | s :: rest => waits s = true /\ waits_but_last rest
  end.

(** A text without its brackets. *)
Definition is_bracket (c : ascii) : bool :=
  char_eqb c "["%char || char_eqb c "]"%char.

Definition without_brackets (s : str) : str :=
  filter (fun c => negb (is_bracket c)) s.

(** A name whose dots, if it has any, all stand at its start: ".md",
    "..png", "LEEME". *)
Definition is_dot (c : ascii) : bool := char_eqb c OsPath.extsep.

Definition dots_lead (name : str) : Prop :=
  forallb (fun c => negb (is_dot c)) (dropwhile is_dot name) = true.

(** A directory with names that start with a dot. *)
Definition hidden_dir : OsPath.directory :=
  [ (u ".md", OsPath.Regular);
    (u "..png", OsPath.Regular);
    (u ".notas.md", OsPath.Regular) ].

(** What [ask_int] makes of a line typed: it takes it, with its value, when
    trimmed it is all digits, [int] reads it and the value is a valid
    option. *)
Definition line_answer (limit : Z) (valid : list Z) (line : str) : option Z :=
  if isdigit (strip line) then
    match int_of_digits limit (strip line) with
    | Some n => if existsb (Z.eqb n) valid then Some n else None
    | None => None
    end
  else None.

(** [int] refuses the line: all digits, but not all decimal, or too many. *)
Definition line_refused (limit : Z) (line : str) : bool :=
  isdigit (strip line)
  && match int_of_digits limit (strip line) with
     | Some _ => false
     | None => true
     end.

(** [ask_int] passes the line over and asks again. *)
Definition line_passed (limit : Z) (valid : list Z) (line : str) : bool :=
  match line_answer limit valid line with
  | Some _ => false
  | None => negb (line_refused limit line)
  end.

(** What [ask_int] shows for the lines it passes over: for each, the
    prompt and then the message. *)
Definition turns (prompt : str) (valid : list Z) (passed : list str)
  : list event :=
  flat_map (fun _ => [Asked prompt; Printed (invalid_option_message valid)])
           passed.

(** The menu of [main] and a user who types a word, a number out of the
    menu, and then 3. *)
Definition menu_options : list Z := [0; 1; 2; 3; 4; 5].

Definition menu_console : console :=
  Console [u "tres"; u "9"; u " 3 "; u "0"] [].

(** ** The program on small inputs *)

Example build_toc_three_lines :
  build_toc (u "# A" ++ nl ++ u "text" ++ nl ++ u "## B")
  = [(1, u "A", 1); (2, u "B", 3)].
Proof. vm_compute. reflexivity. Qed.

(** CR LF is one boundary, LF CR two; no line is opened by a boundary at
    the end. *)
Example splitlines_boundaries :
  splitlines (u "a" ++ ["013"; "010"; "010"]%char ++ u "b" ++ ["010"; "013"]%char
              ++ u " c" ++ ["010"]%char)
  = [u "a"; []; u "b"; []; u " c"].
Proof. vm_compute. reflexivity. Qed.

(** A name that is all extension has none; the extension is the last one. *)
Example splitext_names :
  map (fun name => snd (OsPath.splitext (u name)))
      [".md"; "a/.x.md"; "b.MD"; "c.tar.jpeg"; "a/b.c/d"]%string
  = [[]; u ".md"; u ".MD"; u ".jpeg"; []].
Proof. vm_compute. reflexivity. Qed.

(** Seven [#] make no header, nor does a [#] without text; the title is
    trimmed. *)
Example build_toc_levels :
  build_toc (u "  ###   Title here  " ++ nl ++ u "####### x" ++ nl ++ u "#"
             ++ nl ++ u "#x" ++ nl ++ u "######  six")
  = [(3, u "Title here", 1); (6, u "six", 5)].
Proof. vm_compute. reflexivity. Qed.

(** The empty pattern matches at every position. *)
Example sub_literal_ci_empty_pattern :
  PyRe.sub_literal_ci [] bracket (u "ab") = u "[]a[]b[]".
Proof. vm_compute. reflexivity. Qed.

(** Matches are taken from the left and do not overlap. *)
Example sub_literal_ci_overlap :
  PyRe.sub_literal_ci (u "aa") bracket (u "aaaaa") = u "[aa][aa]a".
Proof. vm_compute. reflexivity. Qed.

(** ** Lists: loops that append, runs at the head of a list *)

Section ListFacts.
Context {A B : Type}.

(** A loop whose body appends to its accumulator. *)
Lemma fold_left_appending (g : list B -> A -> list B) (f : A -> list B) :
  forall l acc,
  (forall acc' x, In x l -> g acc' x = acc' ++ f x) ->
  fold_left g l acc = acc ++ flat_map f l.
Proof.
  induction l as [|x l IH]; intros acc Hg; simpl.
  - now rewrite app_nil_r.
  - rewrite IH.
    + rewrite Hg, <- app_assoc; [reflexivity | now left].
    + intros acc' y Hy. apply Hg. now right.
Qed.

Variable f : A -> bool.

Lemma takewhile_dropwhile (l : list A) : takewhile f l ++ dropwhile f l = l.
Proof.
  induction l as [|x l IH]; simpl; [reflexivity|].
  destruct (f x); simpl; [now rewrite IH | reflexivity].
Qed.

Lemma firstn_takewhile (l : list A) :
  firstn (length (takewhile f l)) l = takewhile f l.
Proof.
  induction l as [|x l IH]; simpl; [reflexivity|].
  destruct (f x); simpl; [now rewrite IH | reflexivity].
Qed.

Lemma skipn_takewhile (l : list A) :
  skipn (length (takewhile f l)) l = dropwhile f l.
Proof.
  induction l as [|x l IH]; simpl; [reflexivity|].
  destruct (f x); simpl; [now rewrite IH | reflexivity].
Qed.

Lemma dropwhile_head (l : list A) :
  match dropwhile f l with
  | [] => True
  | x :: _ => f x = false
  end.
Proof.
  induction l as [|x l IH]; simpl; [exact I|].
  destruct (f x) eqn:E; [exact IH | exact E].
Qed.

Lemma dropwhile_idem (l : list A) :
  dropwhile f (dropwhile f l) = dropwhile f l.
Proof.
  pose proof (dropwhile_head l) as H.
  destruct (dropwhile f l) as [|x r]; simpl; [reflexivity|].
  now rewrite H.
Qed.

Lemma takewhile_all (l : list A) : forallb f l = true -> takewhile f l = l.
Proof.
  induction l as [|x l IH]; simpl; [reflexivity|].
  destruct (f x); simpl; [intros H; now rewrite IH | discriminate].
Qed.

Lemma forallb_dropwhile (g : A -> bool) (l : list A) :
  forallb g l = true -> forallb g (dropwhile f l) = true.
Proof.
  induction l as [|x l IH]; simpl; [reflexivity|].
  intros H; apply andb_true_iff in H as [Hx Hl].
  destruct (f x); [auto | simpl; now rewrite Hx, Hl].
Qed.

(** The first [m] elements are there and all satisfy [f] exactly when the
    run of [f] at the head is at least [m] long. *)
Lemma run_at_least (m : nat) (l : list A) :
  ((length (firstn m l) =? m)%nat && forallb f (firstn m l))
  = (m <=? length (takewhile f l))%nat.
Proof.
  revert l; induction m as [|m IH]; intros l; [reflexivity|].
  destruct l as [|x l]; [reflexivity|].
  cbn [firstn length forallb takewhile].
  destruct (f x); cbn [length].
  - rewrite andb_true_l. exact (IH l).
  - now rewrite andb_false_r.
Qed.

(** Inside the run, the list goes on with an element of the run. *)
Lemma skipn_inside_run (m : nat) (l : list A) :
  (m < length (takewhile f l))%nat ->
  exists x r, skipn m l = x :: r /\ f x = true.
Proof.
  revert l; induction m as [|m IH]; intros l H.
  - destruct l as [|x l]; simpl in H; [lia|].
    destruct (f x) eqn:E; simpl in H; [|lia].
    now exists x, l.
  - destruct l as [|x l]; simpl in H; [lia|].
    destruct (f x) eqn:E; simpl in H; [|lia].
    apply IH; lia.
Qed.

End ListFacts.

Lemma forallb_rev {A : Type} (g : A -> bool) (l : list A) :
  forallb g (rev l) = forallb g l.
Proof.
  induction l as [|x l IH]; simpl; [reflexivity|].
  rewrite forallb_app, IH; simpl. rewrite andb_true_r. apply andb_comm.
Qed.

(** ** Characters and lines *)

Lemma hash_not_space (c : ascii) : PyRe.is_hash c = true -> isspace c = false.
Proof.
  unfold PyRe.is_hash, char_eqb; intros H.
  apply Ascii.eqb_eq in H; subst c; reflexivity.
Qed.

Lemma linebreak_free_not_newline (c : ascii) :
  is_linebreak c = false -> PyRe.not_newline c = true.
Proof.
  unfold PyRe.not_newline, char_eqb; intros H.
  destruct (Ascii.eqb c "010"%char) eqn:E; [|reflexivity].
  apply Ascii.eqb_eq in E; subst c; discriminate H.
Qed.

(** No line of [splitlines] holds a line boundary. *)
Lemma splitlines_from_break_free (n : nat) :
  forall s cur, (length s <= n)%nat -> break_free cur ->
  Forall break_free (splitlines_from cur s).
Proof.
  induction n as [|n IH]; intros s cur Hn Hcur.
  - destruct s; [|simpl in Hn; lia]. simpl.
    destruct cur; constructor; auto.
  - destruct s as [|c rest]; simpl.
    + destruct cur; constructor; auto.
    + simpl in Hn. destruct (is_linebreak c) eqn:Ec.
      * destruct rest as [|d rest'].
        -- constructor; [exact Hcur | constructor].
        -- simpl in Hn.
           destruct (char_eqb c "013"%char && char_eqb d "010"%char);
             (constructor; [exact Hcur | apply IH; [simpl; lia | reflexivity]]).
      * apply IH; [lia|]. unfold break_free in *.
        rewrite forallb_app, Hcur; simpl. now rewrite Ec.
Qed.

Lemma splitlines_break_free (text : str) : Forall break_free (splitlines text).
Proof.
  apply (splitlines_from_break_free (length text)); [lia | reflexivity].
Qed.

(** ** Trimming *)

Lemma rstrip_ends_nonspace (s : str) : ends_nonspace (rstrip s).
Proof.
  unfold ends_nonspace, rstrip. rewrite rev_involutive.
  apply dropwhile_head.
Qed.

Lemma rstrip_fixed (s : str) : ends_nonspace s -> rstrip s = s.
Proof.
  unfold ends_nonspace, rstrip; intros H.
  destruct (rev s) as [|c r] eqn:E; simpl.
  - rewrite <- (rev_involutive s), E. reflexivity.
  - rewrite H. rewrite <- E. apply rev_involutive.
Qed.

Lemma ends_nonspace_suffix (pre s : str) :
  ends_nonspace (pre ++ s) -> s <> [] -> ends_nonspace s.
Proof.
  unfold ends_nonspace. rewrite rev_app_distr.
  destruct (rev s) as [|c r] eqn:E; [|simpl; auto].
  intros _ Hs. exfalso; apply Hs.
  rewrite <- (rev_involutive s), E. reflexivity.
Qed.

Lemma lstrip_keeps_end (s : str) :
  ends_nonspace s -> s <> [] -> lstrip s <> [] /\ ends_nonspace (lstrip s).
Proof.
  intros He Hs.
  assert (Hsplit : lstrip s <> []).
  { unfold lstrip. intros Hd.
    assert (Hall : forallb isspace s = true).
    { pose proof (takewhile_dropwhile isspace s) as H. rewrite Hd, app_nil_r in H.
      rewrite <- H. clear. induction s as [|x l IH]; simpl; [reflexivity|].
      destruct (isspace x) eqn:E; simpl; [now rewrite E|reflexivity]. }
    unfold ends_nonspace in He.
    destruct (rev s) as [|c r] eqn:E.
    - apply Hs. rewrite <- (rev_involutive s), E. reflexivity.
    - rewrite <- forallb_rev, E in Hall. simpl in Hall.
      rewrite He in Hall. discriminate. }
  split; [exact Hsplit|].
  apply (ends_nonspace_suffix (takewhile isspace s)); [|exact Hsplit].
  unfold lstrip. now rewrite takewhile_dropwhile.
Qed.

Lemma strip_break_free (s : str) : break_free s -> break_free (strip s).
Proof.
  unfold break_free, strip, rstrip, lstrip; intros H.
  rewrite forallb_rev. apply forallb_dropwhile.
  rewrite forallb_rev. now apply forallb_dropwhile.
Qed.

Lemma strip_lstrip (s : str) : strip (lstrip s) = strip s.
Proof. unfold strip, lstrip. now rewrite dropwhile_idem. Qed.

(** ** The header pattern *)

(** What the backtracking over the run of [#] comes to: only the whole run
    of leading [#] can be followed by whitespace. *)
Lemma match_hashes_run (n : nat) (t : str) :
  PyRe.match_hashes n t =
  let k := length (takewhile PyRe.is_hash t) in
  if ((1 <=? k) && (k <=? n))%nat then
    match PyRe.match_spaces_rest (skipn k t) with
    | Some g2 => Some (firstn k t, g2)
    | None => None
    end
  else None.
Proof.
  cbv zeta. set (k := length (takewhile PyRe.is_hash t)).
  induction n as [|n IH].
  - cbn [PyRe.match_hashes].
    destruct (Nat.leb_spec 1 k), (Nat.leb_spec k 0); try reflexivity; lia.
  - cbn [PyRe.match_hashes]. rewrite run_at_least. fold k.
    destruct (S n <=? k)%nat eqn:Ele.
    + apply Nat.leb_le in Ele.
      destruct (Nat.eq_dec k (S n)) as [Heq|Hne].
      * rewrite <- Heq. rewrite Nat.leb_refl.
        replace (1 <=? k)%nat with true by (symmetry; apply Nat.leb_le; lia).
        simpl. destruct (PyRe.match_spaces_rest (skipn k t)); [reflexivity|].
        rewrite IH.
        replace (k <=? n)%nat with false by (symmetry; apply Nat.leb_gt; lia).
        now rewrite andb_false_r.
      * destruct (skipn_inside_run PyRe.is_hash (S n) t) as (x & r & Hs & Hx);
          [fold k; lia|].
        rewrite Hs. unfold PyRe.match_spaces_rest at 1.
        cbn [takewhile]. rewrite (hash_not_space x Hx).
        rewrite IH.
        replace (k <=? n)%nat with false by (symmetry; apply Nat.leb_gt; lia).
        replace (k <=? S n)%nat with false by (symmetry; apply Nat.leb_gt; lia).
        reflexivity.
    + apply Nat.leb_gt in Ele. rewrite IH.
      destruct (1 <=? k)%nat; [|reflexivity]. simpl.
      destruct (k <=? n)%nat eqn:E.
      * apply Nat.leb_le in E.
        replace (k <=? S n)%nat with true by (symmetry; apply Nat.leb_le; lia).
        reflexivity.
      * apply Nat.leb_gt in E. lia.
Qed.

Lemma match_spaces_rest_head (s : str) :
  PyRe.match_spaces_rest s =
  if match s with c :: _ => isspace c | [] => false end
  then Some (takewhile PyRe.not_newline (lstrip s))
  else None.
Proof.
  unfold PyRe.match_spaces_rest, lstrip.
  rewrite <- (skipn_takewhile isspace s).
  destruct s as [|c s]; [reflexivity|].
  cbn [takewhile]. destruct (isspace c); reflexivity.
Qed.

(** On a line of [splitlines], the pattern of [build_toc] finds what the
    specification calls a header. *)
Lemma match_header_is_header_of_line (line : str) :
  break_free line ->
  match PyRe.match_header (strip line) with
  | Some (g1, g2) => Some (len g1, strip g2)
  | None => None
  end = header_of_line line.
Proof.
  intros Hbf. unfold PyRe.match_header, header_of_line.
  rewrite match_hashes_run. cbv zeta.
  set (t := strip line).
  rewrite firstn_takewhile, skipn_takewhile.
  set (k := length (takewhile PyRe.is_hash t)).
  unfold len. fold k.
  replace (1 <=? Z.of_nat k) with (1 <=? k)%nat
    by (destruct (Nat.leb_spec 1 k), (Z.leb_spec 1 (Z.of_nat k)); lia).
  replace (Z.of_nat k <=? 6) with (k <=? 6)%nat
    by (destruct (Nat.leb_spec k 6), (Z.leb_spec (Z.of_nat k) 6); lia).
  destruct ((1 <=? k)%nat && (k <=? 6)%nat); [|reflexivity].
  rewrite match_spaces_rest_head. cbn [andb].
  set (remainder := dropwhile PyRe.is_hash t).
  assert (Hbr : break_free remainder).
  { apply forallb_dropwhile. apply strip_break_free, Hbf. }
  assert (Hg2 : takewhile PyRe.not_newline (lstrip remainder) = lstrip remainder).
  { apply takewhile_all. unfold lstrip.
    assert (H := forallb_dropwhile isspace _ remainder Hbr).
    revert H. generalize (dropwhile isspace remainder). clear.
    induction l as [|x l IH]; simpl; [reflexivity|].
    intros H; apply andb_true_iff in H as [Hx Hl].
    rewrite linebreak_free_not_newline, IH; auto.
    now destruct (is_linebreak x). }
  rewrite Hg2.
  assert (Hhead : remainder = [] \/ exists c r, remainder = c :: r)
    by (destruct remainder; eauto).
  destruct Hhead as [Er|(c & r & Er)]; [now rewrite Er|].
  assert (Hh : match remainder with [] => false | x :: _ => isspace x end
               = isspace c) by now rewrite Er.
  rewrite !Hh. destruct (isspace c) eqn:Ec; [|reflexivity].
  cbn [andb]. rewrite strip_lstrip.
  assert (Hend : ends_nonspace remainder).
  { apply (ends_nonspace_suffix (takewhile PyRe.is_hash t)).
    - unfold remainder. rewrite takewhile_dropwhile.
      apply rstrip_ends_nonspace.
    - rewrite Er; discriminate. }
  destruct (lstrip_keeps_end remainder Hend) as [Hne Hend'];
    [rewrite Er; discriminate|].
  unfold strip. rewrite (rstrip_fixed _ Hend').
  destruct (lstrip remainder) eqn:El; [contradiction|].
  reflexivity.
Qed.

(** ** Numbered lines *)

Lemma enumerate_In {A : Type} (l : list A) :
  forall start i x,
  In (i, x) (enumerate start l) <->
  start <= i < start + len l /\ nth_error l (Z.to_nat (i - start)) = Some x.
Proof.
  unfold len.
  induction l as [|y l IH]; intros start i x; cbn [enumerate In length].
  - split; [tauto | lia].
  - rewrite IH. split.
    + intros [H|[H1 H2]].
      * inversion H; subst. rewrite Z.sub_diag. simpl. split; [lia | reflexivity].
      * replace (Z.to_nat (i - start)) with (S (Z.to_nat (i - (start + 1)))) by lia.
        simpl. split; [lia | exact H2].
    + intros [H1 H2].
      destruct (Z.eq_dec i start) as [->|Hne].
      * rewrite Z.sub_diag in H2. simpl in H2. left. congruence.
      * right.
        replace (Z.to_nat (i - start)) with (S (Z.to_nat (i - (start + 1)))) in H2 by lia.
        simpl in H2. split; [lia | exact H2].
Qed.

Lemma enumerate_snd {A : Type} (l : list A) :
  forall start, map snd (enumerate start l) = l.
Proof. induction l as [|y l IH]; intros start; simpl; [|rewrite IH]; reflexivity. Qed.

(** ** The table of contents *)

Lemma build_toc_flat_map (md_text : str) :
  build_toc md_text = flat_map toc_entry (enumerate 1 (splitlines md_text)).
Proof.
  unfold build_toc.
  rewrite (fold_left_appending _ toc_entry); [reflexivity|].
  intros acc [i line] Hin.
  assert (Hbf : break_free line).
  { pose proof (splitlines_break_free md_text) as Hall.
    rewrite Forall_forall in Hall. apply Hall.
    rewrite <- (enumerate_snd (splitlines md_text) 1).
    change line with (snd (i, line)). now apply in_map. }
  unfold toc_entry; cbn [fst snd].
  rewrite <- (match_header_is_header_of_line line Hbf).
  destruct (PyRe.match_header (strip line)) as [[g1 g2]|].
  - reflexivity.
  - now rewrite app_nil_r.
Qed.

(** C6.  For every Markdown text, [build_toc] returns, in the order of the
    lines, exactly one entry (level, title, line number) for each line that,
    trimmed, starts with 1 to 6 [#] followed by whitespace and a non-empty
    remainder, and no entry for any other line; the level is the number of
    leading [#], the title the remainder trimmed, the line number counts
    every line from 1.  On the lines "# A", "text", "## B" it returns
    (1, A, 1) and (2, B, 3). *)
Theorem build_toc_headers (md_text : str) :
  let lines := splitlines md_text in
  build_toc md_text = flat_map toc_entry (enumerate 1 lines)
  /\ (forall level title i,
        In (level, title, i) (build_toc md_text) <->
        exists line,
          1 <= i <= len lines /\
          nth_error lines (Z.to_nat (i - 1)) = Some line /\
          header_of_line line = Some (level, title))
  /\ build_toc (u "# A" ++ nl ++ u "text" ++ nl ++ u "## B")
     = [(1, u "A", 1); (2, u "B", 3)].
Proof.
  cbv zeta. split; [apply build_toc_flat_map|]. split; [|reflexivity].
  intros level title i. rewrite build_toc_flat_map, in_flat_map. split.
  - intros ([j line] & Hin & Hentry).
    apply enumerate_In in Hin as [Hrange Hnth].
    unfold toc_entry in Hentry; cbn [fst snd] in Hentry.
    destruct (header_of_line line) as [[lv ti]|] eqn:Eh; [|contradiction].
    destruct Hentry as [Heq|[]]. inversion Heq; subst.
    exists line. repeat split; try lia; assumption.
  - intros (line & Hrange & Hnth & Hh).
    exists (i, line). split.
    + apply enumerate_In. split; [lia | exact Hnth].
    + unfold toc_entry; cbn [fst snd]. rewrite Hh. now left.
Qed.

(** ** The pages of [paginate] *)

Lemma range_empty (a b : Z) : b <= a -> range a b = [].
Proof.
  intros H. unfold range. replace (Z.to_nat (b - a)) with 0%nat by lia.
  reflexivity.
Qed.

Lemma range_cons (a b : Z) : a < b -> range a b = a :: range (a + 1) b.
Proof.
  intros H. unfold range.
  replace (Z.to_nat (b - a)) with (S (Z.to_nat (b - (a + 1)))) by lia.
  cbn [seq map]. f_equal; [lia|].
  rewrite <- seq_shift, map_map. apply map_ext. intros k. lia.
Qed.

Lemma getitem_nth {A : Type} (l : list A) (i : Z) (x : A) :
  0 <= i -> nth_error l (Z.to_nat i) = Some x -> getitem l i = Ok x.
Proof.
  intros Hi Hx. unfold getitem.
  destruct (Z.ltb_spec i 0); [lia|].
  destruct (Z.ltb_spec i 0); [lia|]. now rewrite Hx.
Qed.

(** The loop [for i in range(a, b): print(lines[i])] prints [lines[a:b]]. *)
Lemma print_range (lines : list str) (n : nat) :
  forall a out,
  0 <= a -> a + Z.of_nat n <= len lines ->
  for_each (range a (a + Z.of_nat n))
           (fun out i => l <- getitem lines i ;; Ok (out ++ [l])) out
  = Ok (out ++ firstn n (skipn (Z.to_nat a) lines)).
Proof.
  unfold len.
  induction n as [|n IH]; intros a out Ha Hb.
  - rewrite range_empty by lia. simpl. now rewrite app_nil_r.
  - rewrite range_cons by lia. cbn [for_each].
    destruct (nth_error lines (Z.to_nat a)) as [x|] eqn:Ex.
    2:{ apply nth_error_None in Ex. lia. }
    rewrite (getitem_nth lines a x Ha Ex). cbn [bind].
    replace (a + Z.of_nat (S n)) with ((a + 1) + Z.of_nat n) by lia.
    rewrite IH by lia. f_equal. rewrite <- app_assoc. f_equal.
    replace (Z.to_nat (a + 1)) with (S (Z.to_nat a)) by lia.
    clear - Ex. revert Ex. generalize (Z.to_nat a) as k. 
    induction lines as [|y ys IHl]; intros [|k] Ex; simpl in *; try discriminate.
    + inversion Ex; subst. reflexivity.
    + apply IHl, Ex.
Qed.

Section PaginatorFacts.
Variable wrap : str -> Z -> list str.
Variable terminal : Z * Z.

Lemma paginate_loop_done (fuel : nat) (title : str) (lines : list str)
      (rows total idx : Z) :
  total <= idx -> paginate_loop fuel title lines rows total idx = Ok [].
Proof.
  intros H. destruct fuel; simpl;
    destruct (Z.ltb_spec idx total); try lia; reflexivity.
Qed.

(** With fuel for the lines left, the loop ends, and its screens hold the
    chunks of the lines from [idx] on. *)
Lemma paginate_loop_chunks (title : str) (lines : list str) (n : nat) :
  (0 < n)%nat ->
  forall fuel idx,
  (idx <= length lines)%nat -> (length lines - idx <= fuel)%nat ->
  exists screens,
    paginate_loop fuel title lines (Z.of_nat n) (len lines) (Z.of_nat idx)
    = Ok screens
    /\ map body screens = chunks_upto fuel n (skipn idx lines).
Proof.
  intros Hn. unfold len.
  induction fuel as [|fuel IH]; intros idx Hidx Hfuel.
  - exists []. split.
    + apply paginate_loop_done. lia.
    + rewrite skipn_all2 by lia. reflexivity.
  - destruct (Nat.eq_dec idx (length lines)) as [->|Hlt].
    + exists []. split.
      * apply paginate_loop_done. lia.
      * rewrite skipn_all. reflexivity.
    + cbn [paginate_loop].
      destruct (Z.ltb_spec (Z.of_nat idx) (Z.of_nat (length lines))); [|lia].
      set (end_ := Z.min (Z.of_nat idx + Z.of_nat n) (Z.of_nat (length lines))).
      set (m := Z.to_nat (end_ - Z.of_nat idx)).
      replace end_ with (Z.of_nat idx + Z.of_nat m) by (unfold m, end_; lia).
      rewrite print_range by (unfold len, m, end_; lia).
      cbn [bind app]. rewrite Nat2Z.id.
      destruct (IH (idx + m)%nat) as (rest & Hrest & Hbody);
        [unfold m, end_; lia | unfold m, end_; lia |].
      rewrite <- Nat2Z.inj_add, Hrest. cbn [bind].
      eexists; split; [reflexivity|].
      cbn [map body]. rewrite Hbody.
      destruct (skipn idx lines) as [|x r] eqn:Es.
      { assert (Hl := f_equal (@length _) Es). rewrite length_skipn in Hl.
        simpl in Hl. lia. }
      cbn [chunks_upto]. rewrite <- Es. f_equal.
      * (* the lines printed are the first [n] left *)
        destruct (Nat.le_gt_cases n (length lines - idx)).
        -- f_equal. unfold m, end_. lia.
        -- rewrite !firstn_all2; try reflexivity;
             rewrite length_skipn; unfold m, end_; lia.
      * (* the loop goes on behind them *)
        rewrite skipn_skipn.
        destruct (Nat.le_gt_cases n (length lines - idx)).
        -- do 2 f_equal. unfold m, end_. lia.
        -- rewrite !skipn_all2; try reflexivity; unfold m, end_; lia.
Qed.

End PaginatorFacts.

(** ** Chunks *)

Lemma chunks_upto_concat {A : Type} (n : nat) :
  (0 < n)%nat ->
  forall fuel (l : list A), (length l <= fuel)%nat ->
  concat (chunks_upto fuel n l) = l.
Proof.
  intros Hn. induction fuel as [|fuel IH]; intros l Hl.
  - destruct l; [reflexivity | simpl in Hl; lia].
  - destruct l as [|x l]; [reflexivity|].
    cbn [chunks_upto concat]. rewrite IH.
    + apply firstn_skipn.
    + rewrite length_skipn. cbn [length] in *. lia.
Qed.

Lemma chunks_upto_full_but_last {A : Type} (n : nat) :
  (0 < n)%nat ->
  forall fuel (l : list A), (length l <= fuel)%nat ->
  full_but_last n (chunks_upto fuel n l).
Proof.
  intros Hn. induction fuel as [|fuel IH]; intros l Hl.
  - destruct l; [exact I | simpl in Hl; lia].
  - destruct l as [|x l]; [exact I|].
    cbn [chunks_upto].
    assert (Hrest : (length (skipn n (x :: l)) <= fuel)%nat).
    { rewrite length_skipn. cbn [length] in *. lia. }
    specialize (IH _ Hrest).
    destruct (skipn n (x :: l)) as [|y r] eqn:Es.
    + (* the last chunk *)
      destruct fuel; cbn [chunks_upto full_but_last];
        rewrite length_firstn; cbn [length]; lia.
    + (* a chunk with more behind it *)
      assert (Hlen : (n < length (x :: l))%nat).
      { assert (H := f_equal (@length _) Es). rewrite length_skipn in H.
        cbn [length] in *. lia. }
      destruct fuel as [|fuel]; [cbn [length] in Hrest; lia|].
      cbn [chunks_upto] in *. cbn [full_but_last].
      split; [|exact IH]. rewrite length_firstn. lia.
Qed.

(** ** The paginator *)

Lemma paginate_positive (wrap : str -> Z -> list str) (terminal : Z * Z)
      (text title : str) (cols rows : Z) :
  0 < cols -> 0 < rows ->
  exists screens,
    paginate wrap terminal text title cols rows = Ok screens
    /\ map body screens = chunks (body_height rows) (wrapped_lines wrap cols text).
Proof.
  intros Hc Hr. unfold paginate.
  destruct (Z.leb_spec cols 0); [lia|].
  destruct (Z.leb_spec rows 0); [lia|]. cbn [orb].
  rewrite (fold_left_appending _ (wrapped_or_blank wrap cols))
    by reflexivity.
  cbn [app]. fold (wrapped_lines wrap cols text).
  set (lines := wrapped_lines wrap cols text).
  destruct (paginate_loop_chunks title lines (body_height rows)
              ltac:(unfold body_height; lia) (length lines) 0%nat
              ltac:(lia) ltac:(lia))
    as (screens & Hloop & Hbody).
  exists screens. split; [|exact Hbody].
  rewrite <- Hloop. unfold body_height. f_equal. lia.
Qed.

Lemma paginate_pages (wrap : str -> Z -> list str) (terminal : Z * Z)
      (text title : str) (cols rows : Z) :
  0 < cols -> 0 < rows ->
  exists screens,
    paginate wrap terminal text title cols rows = Ok screens
    /\ map body screens = chunks (body_height rows) (wrapped_lines wrap cols text)
    /\ concat (map body screens) = wrapped_lines wrap cols text
    /\ full_but_last (body_height rows) (map body screens).
Proof.
  intros Hc Hr.
  destruct (paginate_positive wrap terminal text title cols rows Hc Hr)
    as (screens & Hp & Hbody).
  exists screens. rewrite Hbody. unfold chunks.
  repeat split; try assumption.
  - apply chunks_upto_concat; unfold body_height; lia.
  - apply chunks_upto_full_but_last; unfold body_height; lia.
Qed.

(** C7.  For every text and every viewport (columns and rows, both
    positive), the loop of [paginate] ends, and its pages are the consecutive
    chunks, in order, of the wrapped lines: put end to end they are the
    wrapped lines, each has [max(10, rows - 3)] lines but the last, which
    has at least one line and no more than that. *)
Theorem paginate_chunks (wrap : str -> Z -> list str) (terminal : Z * Z)
        (text title : str) (cols rows : Z) :
  0 < cols -> 0 < rows ->
  exists screens,
    paginate wrap terminal text title cols rows = Ok screens
    /\ map body screens
       = chunks (Z.to_nat (Z.max 10 (rows - 3))) (wrapped_lines wrap cols text)
    /\ concat (map body screens) = wrapped_lines wrap cols text
    /\ full_but_last (Z.to_nat (Z.max 10 (rows - 3))) (map body screens).
Proof. exact (paginate_pages wrap terminal text title cols rows). Qed.

Lemma paginate_chunks_witness :
  0 < 80 /\ 0 < 5 /\
  exists screens,
    paginate wrap_fitting (100, 30) twelve_lines (u "Guia") 80 5 = Ok screens
    /\ map body screens
       = chunks (Z.to_nat (Z.max 10 (5 - 3))) (wrapped_lines wrap_fitting 80 twelve_lines)
    /\ concat (map body screens) = wrapped_lines wrap_fitting 80 twelve_lines
    /\ full_but_last (Z.to_nat (Z.max 10 (5 - 3))) (map body screens).
Proof.
  split; [lia|]. split; [lia|].
  apply (paginate_chunks wrap_fitting (100, 30) twelve_lines (u "Guia") 80 5); lia.
Defined.

(** Twelve lines on a height of 10: a page of ten, then a page of two. *)
Example paginate_twelve_lines :
  option_map (map (fun s => map (@length ascii) (body s)))
    match paginate wrap_fitting (100, 30) twelve_lines [] 80 5 with
    | Ok screens => Some screens
    | _ => None
    end
  = Some [[1; 1; 1; 1; 1; 1; 1; 1; 1; 1]; [1; 1]]%nat.
Proof. vm_compute. reflexivity. Qed.

(** A width or a height that is not positive stands for no viewport given:
    the size of the terminal is taken. *)
Lemma paginate_unspecified (wrap : str -> Z -> list str) (terminal : Z * Z)
      (text title : str) (width height : Z) :
  width <= 0 \/ height <= 0 ->
  0 < fst terminal -> 0 < snd terminal ->
  paginate wrap terminal text title width height
  = paginate wrap terminal text title (fst terminal) (snd terminal).
Proof.
  intros Hw Hc Hr. unfold paginate. destruct terminal as [c r]; cbn [fst snd] in *.
  replace ((width <=? 0) || (height <=? 0)) with true.
  2:{ symmetry. apply orb_true_iff. destruct Hw; [left|right]; now apply Z.leb_le. }
  destruct (Z.leb_spec c 0); [lia|]. destruct (Z.leb_spec r 0); [lia|].
  reflexivity.
Qed.

(** C1.  For every text and every positive viewport, pagination keeps all
    the content.  Each source line is wrapped on its own to the width and
    gives at least one output line; a line [textwrap.wrap] returns nothing
    for, as it does for the empty line, gives exactly one empty output line;
    and the lines of all the pages, put end to end, are the wrapped source
    lines in source order, none dropped and none moved. *)
Theorem paginate_preserves_content (wrap : str -> Z -> list str)
        (terminal : Z * Z) (text title : str) (cols rows : Z) :
  0 < cols -> 0 < rows ->
  wrap [] cols = [] ->
  exists screens,
    paginate wrap terminal text title cols rows = Ok screens
    /\ concat (map body screens)
       = concat (map (wrapped_or_blank wrap cols) (splitlines text))
    /\ Forall (fun raw_line =>
                 (1 <= length (wrapped_or_blank wrap cols raw_line))%nat
                 /\ (wrap raw_line cols <> [] ->
                     wrapped_or_blank wrap cols raw_line = wrap raw_line cols)
                 /\ (raw_line = [] ->
                     wrapped_or_blank wrap cols raw_line = [[]]))
              (splitlines text).
Proof.
  intros Hc Hr Hblank.
  destruct (paginate_pages wrap terminal text title cols rows Hc Hr)
    as (screens & Hp & _ & Hcat & _).
  exists screens. split; [exact Hp|]. split.
  - rewrite Hcat. unfold wrapped_lines. apply flat_map_concat_map.
  - apply Forall_forall. intros raw _. unfold wrapped_or_blank.
    repeat split.
    + destruct (wrap raw cols); simpl; lia.
    + destruct (wrap raw cols); [intros H; now contradiction H | reflexivity].
    + intros ->. now rewrite Hblank.
Qed.

Lemma paginate_preserves_content_witness :
  0 < 80 /\ 0 < 24 /\ wrap_fitting [] 80 = [] /\
  exists screens,
    paginate wrap_fitting (100, 30) sample_text (u "Guia") 80 24 = Ok screens
    /\ concat (map body screens)
       = concat (map (wrapped_or_blank wrap_fitting 80) (splitlines sample_text))
    /\ Forall (fun raw_line =>
                 (1 <= length (wrapped_or_blank wrap_fitting 80 raw_line))%nat
                 /\ (wrap_fitting raw_line 80 <> [] ->
                     wrapped_or_blank wrap_fitting 80 raw_line
                     = wrap_fitting raw_line 80)
                 /\ (raw_line = [] ->
                     wrapped_or_blank wrap_fitting 80 raw_line = [[]]))
              (splitlines sample_text).
Proof.
  split; [lia|]. split; [lia|]. split; [reflexivity|].
  apply (paginate_preserves_content wrap_fitting (100, 30) sample_text (u "Guia") 80 24);
    [lia | lia | reflexivity].
Defined.

(** The sample text has an empty line, which comes out as an empty line. *)
Example paginate_sample_text :
  paginate wrap_fitting (100, 30) sample_text [] 80 24
  = Ok [Screen None [u "Tienda Aurelion"; []; u "Consultor de documentos"] false].
Proof. vm_compute. reflexivity. Qed.

(** ** Ranges and numbered lines *)

Lemma range_In (a b i : Z) : In i (range a b) <-> a <= i < b.
Proof.
  unfold range. rewrite in_map_iff. split.
  - intros (k & <- & Hk). apply in_seq in Hk. lia.
  - intros H. exists (Z.to_nat (i - a)). split; [lia|].
    apply in_seq. lia.
Qed.

Lemma range_sorted (a b : Z) : StronglySorted Z.lt (range a b).
Proof.
  remember (Z.to_nat (b - a)) as n eqn:En.
  revert a En. induction n as [|n IH]; intros a En.
  - rewrite range_empty by lia. constructor.
  - rewrite range_cons by lia. constructor.
    + apply IH. lia.
    + apply Forall_forall. intros i Hi. apply range_In in Hi. lia.
Qed.

Lemma filter_sorted {A : Type} (R : A -> A -> Prop) (f : A -> bool) (l : list A) :
  StronglySorted R l -> StronglySorted R (filter f l).
Proof.
  induction 1 as [|x l Hs IH Hx]; simpl; [constructor|].
  destruct (f x); [|exact IH].
  constructor; [exact IH|].
  rewrite Forall_forall in *. intros y Hy.
  apply filter_In in Hy as [Hy _]. auto.
Qed.

(** The numbered lines the loop of [search_all] keeps are the lines whose
    numbers [matching_line_numbers] lists. *)
Lemma enumerate_filter (P : str -> bool) (lines : list str) :
  forall start,
  map fst (filter (fun il => P (snd il)) (enumerate start lines))
  = filter (fun i => match nth_error lines (Z.to_nat (i - start)) with
                     | Some line => P line
                     | None => false
                     end)
           (range start (start + len lines)).
Proof.
  unfold len.
  induction lines as [|x lines IH]; intros start.
  - rewrite range_empty by (simpl; lia). reflexivity.
  - rewrite range_cons by (simpl length; lia).
    cbn [enumerate filter snd]. rewrite Z.sub_diag. cbn [Z.to_nat nth_error].
    assert (Htail :
      filter (fun i => match nth_error (x :: lines) (Z.to_nat (i - start)) with
                       | Some line => P line
                       | None => false
                       end)
             (range (start + 1) (start + Z.of_nat (length (x :: lines))))
      = map fst (filter (fun il => P (snd il)) (enumerate (start + 1) lines))).
    { rewrite IH.
      replace (start + Z.of_nat (length (x :: lines)))
        with (start + 1 + Z.of_nat (length lines)) by (simpl length; lia).
      apply filter_ext_in. intros i Hi. apply range_In in Hi.
      replace (Z.to_nat (i - start)) with (S (Z.to_nat (i - (start + 1)))) by lia.
      reflexivity. }
    rewrite Htail. destruct (P x); reflexivity.
Qed.

Lemma matching_line_numbers_enumerate (query : str) (lines : list str) :
  matching_line_numbers query lines
  = map fst (filter (fun il => line_matches query (snd il)) (enumerate 1 lines)).
Proof.
  rewrite enumerate_filter. unfold matching_line_numbers.
  rewrite (Z.add_comm 1). apply filter_ext_in.
  intros i Hi. apply range_In in Hi. unfold line_at.
  destruct (Z.ltb_spec i 1); [lia | reflexivity].
Qed.

(** ** The search loop *)

Lemma flat_map_filter {A B : Type} (P : A -> bool) (g : A -> B) (l : list A) :
  flat_map (fun x => if P x then [g x] else []) l = map g (filter P l).
Proof.
  induction l as [|x l IH]; simpl; [reflexivity|].
  destruct (P x); simpl; now rewrite IH.
Qed.

(** The inner loop, over the numbered lines of one document. *)
Lemma search_document (query : str) (context : Z) (p : str) (lines : list str)
      (results : list (str * Z * str)) :
  fold_left
    (fun (results : list (str * Z * str)) (il : Z * str) =>
       let '(i, line) := il in
       if contains (lower query) (lower line) then
         let start := Z.max 1 (i - context) in
         let end_ := Z.min (len lines) (i + context) in
         let snippet := join nl (slice lines (start - 1) end_) in
         let snippet := PyRe.sub_literal_ci query bracket snippet in
         results ++ [(p, i, snippet)]
       else results)
    (enumerate 1 lines) results
  = results ++ document_results query context p lines.
Proof.
  rewrite (fold_left_appending _
             (fun il => if line_matches query (snd il)
                        then [(p, fst il, snippet_at query context lines (fst il))]
                        else [])).
  - f_equal. rewrite flat_map_filter. unfold document_results.
    rewrite matching_line_numbers_enumerate, map_map. reflexivity.
  - intros acc [i line] _. unfold line_matches, snippet_at; cbn [fst snd].
    destruct (contains (lower query) (lower line)); [reflexivity|].
    now rewrite app_nil_r.
Qed.

(** The outer loop: it reads the documents in order, and the first one that
    cannot be read ends it with [OSError]. *)
Lemma search_documents (fs : filesystem) (query : str) (context : Z) :
  forall md_paths results,
  for_each md_paths
    (fun results p =>
       text <- read_text fs p ;;
       let lines := splitlines text in
       Ok (fold_left
             (fun (results : list (str * Z * str)) (il : Z * str) =>
                let '(i, line) := il in
                if contains (lower query) (lower line) then
                  let start := Z.max 1 (i - context) in
                  let end_ := Z.min (len lines) (i + context) in
                  let snippet := join nl (slice lines (start - 1) end_) in
                  let snippet := PyRe.sub_literal_ci query bracket snippet in
                  results ++ [(p, i, snippet)]
                else results)
             (enumerate 1 lines)
             results))
    results
  = if forallb (fun p => match fs p with Some _ => true | None => false end) md_paths
    then Ok (results ++
             flat_map (fun p => document_results query context p (document_lines fs p))
                      md_paths)
    else Raise OSError.
Proof.
  induction md_paths as [|p md_paths IH]; intros results.
  - simpl. now rewrite app_nil_r.
  - cbn [for_each forallb flat_map]. unfold read_text, document_lines at 1.
    destruct (fs p) as [text|]; cbn [bind andb]; [|reflexivity].
    rewrite search_document, IH.
    destruct (forallb _ md_paths); [|reflexivity].
    now rewrite <- app_assoc.
Qed.

Lemma search_all_outcome (fs : filesystem) (md_paths : list str) (query : str)
      (context : Z) :
  search_all fs md_paths query context
  = if forallb (fun p => match fs p with Some _ => true | None => false end) md_paths
    then Ok (flat_map (fun p => document_results query context p (document_lines fs p))
                      md_paths)
    else Raise OSError.
Proof. unfold search_all. now rewrite search_documents. Qed.

Lemma readable_forallb (fs : filesystem) (md_paths : list str) :
  Forall (readable fs) md_paths <->
  forallb (fun p => match fs p with Some _ => true | None => false end) md_paths = true.
Proof.
  rewrite forallb_forall, Forall_forall. unfold readable.
  split; intros H p Hp; specialize (H p Hp); destruct (fs p); congruence.
Qed.

Lemma search_all_readable (fs : filesystem) (md_paths : list str) (query : str)
      (context : Z) :
  Forall (readable fs) md_paths ->
  search_all fs md_paths query context
  = Ok (flat_map (fun p => document_results query context p (document_lines fs p))
                 md_paths).
Proof.
  intros H. rewrite search_all_outcome.
  apply readable_forallb in H. now rewrite H.
Qed.

(** ** Which lines match *)

Lemma line_at_Some (lines : list str) (i : Z) (line : str) :
  line_at lines i = Some line -> 1 <= i <= len lines.
Proof.
  unfold line_at, len. destruct (Z.ltb_spec i 1) as [Hi|Hi]; [discriminate|].
  intros Hl. assert (Hn : nth_error lines (Z.to_nat (i - 1)) <> None) by congruence.
  apply nth_error_Some in Hn. lia.
Qed.

Lemma line_at_in_range (lines : list str) (i : Z) :
  1 <= i <= len lines -> exists line, line_at lines i = Some line.
Proof.
  unfold line_at, len. intros H. destruct (Z.ltb_spec i 1); [lia|].
  destruct (nth_error lines (Z.to_nat (i - 1))) as [line|] eqn:E; [now exists line|].
  apply nth_error_None in E. lia.
Qed.

Lemma matching_line_numbers_In (query : str) (lines : list str) (i : Z) :
  In i (matching_line_numbers query lines) <->
  exists line,
    1 <= i <= len lines /\ line_at lines i = Some line
    /\ contains (lower query) (lower line) = true.
Proof.
  unfold matching_line_numbers. rewrite filter_In, range_In. split.
  - intros [Hr Hm]. destruct (line_at lines i) as [line|] eqn:E; [|discriminate].
    exists line. repeat split; try lia; assumption.
  - intros (line & Hr & Hl & Hm). split; [lia|]. now rewrite Hl.
Qed.

Lemma matching_line_numbers_sorted (query : str) (lines : list str) :
  StronglySorted Z.lt (matching_line_numbers query lines).
Proof. apply filter_sorted, range_sorted. Qed.

Lemma results_places (query : str) (context : Z) (fs : filesystem)
      (md_paths : list str) :
  map result_place
      (flat_map (fun p => document_results query context p (document_lines fs p))
                md_paths)
  = flat_map (fun p => map (pair p)
                           (matching_line_numbers query (document_lines fs p)))
             md_paths.
Proof.
  induction md_paths as [|p md_paths IH]; [reflexivity|].
  cbn [flat_map]. rewrite map_app, IH. f_equal.
  unfold document_results. rewrite map_map. reflexivity.
Qed.

(** C4.  For every sequence of documents (all of them readable) and every
    query, [search_all] returns exactly one match per line whose lowered
    content has the lowered query as a substring, numbered from 1: the
    places of the results are, document after document in the order given,
    the matching line numbers of each in ascending order, and nothing is
    cut off the end. *)
Theorem search_all_matches (fs : filesystem) (md_paths : list str)
        (query : str) (context : Z) :
  Forall (readable fs) md_paths ->
  exists results,
    search_all fs md_paths query context = Ok results
    /\ map result_place results
       = flat_map (fun p => map (pair p)
                                (matching_line_numbers query (document_lines fs p)))
                  md_paths
    /\ (forall p i,
          In i (matching_line_numbers query (document_lines fs p)) <->
          exists line,
            1 <= i <= len (document_lines fs p)
            /\ line_at (document_lines fs p) i = Some line
            /\ contains (lower query) (lower line) = true)
    /\ (forall p,
          StronglySorted Z.lt (matching_line_numbers query (document_lines fs p)))
    /\ length results
       = list_sum (map (fun p => length (matching_line_numbers
                                           query (document_lines fs p)))
                       md_paths).
Proof.
  intros Hread. eexists. split; [apply search_all_readable, Hread|].
  split; [apply results_places|].
  split; [intros p i; apply matching_line_numbers_In|].
  split; [intros p; apply matching_line_numbers_sorted|].
  clear Hread. induction md_paths as [|p md_paths IH]; [reflexivity|].
  cbn [flat_map map]. rewrite length_app, IH.
  unfold document_results. rewrite length_map. reflexivity.
Qed.

Lemma sample_fs_readable :
  Forall (readable sample_fs) [u "guia.md"; u "notas.md"].
Proof. repeat constructor; discriminate. Qed.

Lemma search_all_matches_witness :
  Forall (readable sample_fs) [u "guia.md"; u "notas.md"] /\
  exists results,
    search_all sample_fs [u "guia.md"; u "notas.md"] (u "CAT") 1 = Ok results
    /\ map result_place results
       = flat_map (fun p => map (pair p)
                                (matching_line_numbers (u "CAT") (document_lines sample_fs p)))
                  [u "guia.md"; u "notas.md"]
    /\ (forall p i,
          In i (matching_line_numbers (u "CAT") (document_lines sample_fs p)) <->
          exists line,
            1 <= i <= len (document_lines sample_fs p)
            /\ line_at (document_lines sample_fs p) i = Some line
            /\ contains (lower (u "CAT")) (lower line) = true)
    /\ (forall p,
          StronglySorted Z.lt (matching_line_numbers (u "CAT") (document_lines sample_fs p)))
    /\ length results
       = list_sum (map (fun p => length (matching_line_numbers
                                           (u "CAT") (document_lines sample_fs p)))
                       [u "guia.md"; u "notas.md"]).
Proof.
  split; [exact sample_fs_readable|].
  exact (search_all_matches sample_fs [u "guia.md"; u "notas.md"] (u "CAT") 1
           sample_fs_readable).
Defined.

(** The places of the matches of "CAT" in the two sample documents. *)
Example search_all_sample_places :
  match search_all sample_fs [u "guia.md"; u "notas.md"] (u "CAT") 1 with
  | Ok results => map result_place results
  | _ => []
  end
  = [(u "guia.md", 1); (u "guia.md", 3); (u "notas.md", 1)].
Proof. vm_compute. reflexivity. Qed.

(** ** The empty query *)

Lemma contains_empty (hay : str) : contains [] hay = true.
Proof. destruct hay; reflexivity. Qed.

Lemma matching_line_numbers_empty_query (lines : list str) :
  matching_line_numbers [] lines = range 1 (len lines + 1).
Proof.
  unfold matching_line_numbers.
  rewrite <- (filter_ext_in (fun _ => true)).
  - induction (range 1 (len lines + 1)) as [|x l IH]; simpl; [|rewrite IH]; reflexivity.
  - intros i Hi. apply range_In in Hi.
    destruct (line_at_in_range lines i) as [line Hl]; [lia|].
    rewrite Hl. unfold line_matches. cbn [lower map]. now rewrite contains_empty.
Qed.

(** C10.  [search_all] asks no minimum length of the query: with the empty
    query the substring test holds on every line, the empty ones too, so
    the search returns one match for every line of every document, in
    order. *)
Theorem search_all_empty_query (fs : filesystem) (md_paths : list str)
        (context : Z) :
  Forall (readable fs) md_paths ->
  (forall line, contains (lower []) (lower line) = true)
  /\ exists results,
       search_all fs md_paths [] context = Ok results
       /\ map result_place results
          = flat_map (fun p => map (pair p)
                                   (range 1 (len (document_lines fs p) + 1)))
                     md_paths.
Proof.
  intros Hread. split; [intros line; apply contains_empty|].
  eexists. split; [apply search_all_readable, Hread|].
  rewrite results_places. apply flat_map_ext. intros p.
  now rewrite matching_line_numbers_empty_query.
Qed.

Lemma search_all_empty_query_witness :
  Forall (readable sample_fs) [u "guia.md"; u "notas.md"] /\
  (forall line, contains (lower []) (lower line) = true)
  /\ exists results,
       search_all sample_fs [u "guia.md"; u "notas.md"] [] 1 = Ok results
       /\ map result_place results
          = flat_map (fun p => map (pair p)
                                   (range 1 (len (document_lines sample_fs p) + 1)))
                     [u "guia.md"; u "notas.md"].
Proof.
  split; [exact sample_fs_readable|].
  exact (search_all_empty_query sample_fs [u "guia.md"; u "notas.md"] 1
           sample_fs_readable).
Defined.

(** With the empty query every line of the sample documents is a match,
    the empty second line of the second document too. *)
Example search_all_empty_query_sample :
  match search_all sample_fs [u "guia.md"; u "notas.md"] [] 1 with
  | Ok results => map result_place results
  | _ => []
  end
  = [(u "guia.md", 1); (u "guia.md", 2); (u "guia.md", 3);
     (u "notas.md", 1); (u "notas.md", 2); (u "notas.md", 3)].
Proof. vm_compute. reflexivity. Qed.

(** ** The context window *)

Lemma skipn_nth_error {A : Type} (l : list A) :
  forall k x, nth_error l k = Some x -> skipn k l = x :: skipn (S k) l.
Proof.
  induction l as [|y l IH]; intros [|k] x H; simpl in *; try discriminate.
  - now inversion H.
  - now apply IH.
Qed.

Lemma lines_between_empty (lines : list str) (a b : Z) :
  b < a -> lines_between lines a b = [].
Proof. intros H. unfold lines_between. now rewrite range_empty by lia. Qed.

Lemma lines_between_cons (lines : list str) (a b : Z) (line : str) :
  a <= b -> line_at lines a = Some line ->
  lines_between lines a b = line :: lines_between lines (a + 1) b.
Proof.
  intros H Hl. unfold lines_between. rewrite range_cons by lia.
  cbn [flat_map]. now rewrite Hl.
Qed.

(** A slice of the lines, by line numbers. *)
Lemma firstn_skipn_lines_between (lines : list str) (n : nat) :
  forall k, (k + n <= length lines)%nat ->
  firstn n (skipn k lines)
  = lines_between lines (Z.of_nat k + 1) (Z.of_nat k + Z.of_nat n).
Proof.
  induction n as [|n IH]; intros k Hk.
  - rewrite lines_between_empty by lia. reflexivity.
  - destruct (nth_error lines k) as [x|] eqn:Ex.
    2:{ apply nth_error_None in Ex. lia. }
    rewrite (skipn_nth_error lines k x Ex). cbn [firstn].
    rewrite (lines_between_cons lines _ _ x); [|lia|].
    + f_equal. rewrite IH by lia. f_equal; lia.
    + unfold line_at. destruct (Z.ltb_spec (Z.of_nat k + 1) 1); [lia|].
      now replace (Z.to_nat (Z.of_nat k + 1 - 1)) with k by lia.
Qed.

Lemma slice_lines_between (lines : list str) (a b : Z) :
  1 <= a -> 0 <= b <= len lines ->
  slice lines (a - 1) b = lines_between lines a b.
Proof.
  intros Ha Hb. unfold slice, slice_bound. fold (len lines).
  destruct (Z.ltb_spec (a - 1) 0); [lia|].
  destruct (Z.ltb_spec b 0); [lia|].
  unfold len in *.
  destruct (Z.le_gt_cases a b) as [Hab|Hab].
  - replace (Z.min (a - 1) (Z.of_nat (length lines))) with (a - 1) by lia.
    replace (Z.min b (Z.of_nat (length lines))) with b by lia.
    rewrite firstn_skipn_lines_between by lia. f_equal; lia.
  - rewrite lines_between_empty by lia.
    replace (Z.to_nat (Z.min b (Z.of_nat (length lines))
                       - Z.min (a - 1) (Z.of_nat (length lines)))) with 0%nat by lia.
    reflexivity.
Qed.

Lemma snippet_at_window (query : str) (context : Z) (lines : list str) (i : Z) :
  0 <= context -> 1 <= i <= len lines ->
  snippet_at query context lines i
  = PyRe.sub_literal_ci query bracket (join nl (context_window lines i context)).
Proof.
  intros Hc Hi. unfold snippet_at, context_window.
  rewrite slice_lines_between by lia. reflexivity.
Qed.

Lemma context_window_zero (lines : list str) (i : Z) (line : str) :
  line_at lines i = Some line -> context_window lines i 0 = [line].
Proof.
  intros Hl. pose proof (line_at_Some lines i line Hl) as Hi.
  unfold context_window.
  replace (Z.max 1 (i - 0)) with i by lia.
  replace (Z.min (len lines) (i + 0)) with i by lia.
  rewrite (lines_between_cons lines i i line) by (auto; lia).
  now rewrite lines_between_empty by lia.
Qed.

Lemma context_window_first_line (lines : list str) (l1 l2 : str) :
  line_at lines 1 = Some l1 -> line_at lines 2 = Some l2 ->
  context_window lines 1 1 = [l1; l2].
Proof.
  intros H1 H2. pose proof (line_at_Some lines 2 l2 H2) as Hi.
  unfold context_window.
  replace (Z.max 1 (1 - 1)) with 1 by lia.
  replace (Z.min (len lines) (1 + 1)) with 2 by lia.
  rewrite (lines_between_cons lines 1 2 l1) by (auto; lia).
  rewrite (lines_between_cons lines (1 + 1) 2 l2) by (auto; lia).
  now rewrite lines_between_empty by lia.
Qed.

(** The window of a match in the middle: the line before, the line, the
    line after. *)
Lemma context_window_middle (lines : list str) (i : Z) (l0 l1 l2 : str) :
  line_at lines (i - 1) = Some l0 -> line_at lines i = Some l1 ->
  line_at lines (i + 1) = Some l2 ->
  context_window lines i 1 = [l0; l1; l2].
Proof.
  intros H0 H1 H2.
  pose proof (line_at_Some lines _ _ H0). pose proof (line_at_Some lines _ _ H2).
  unfold context_window.
  replace (Z.max 1 (i - 1)) with (i - 1) by lia.
  replace (Z.min (len lines) (i + 1)) with (i + 1) by lia.
  rewrite (lines_between_cons lines (i - 1) (i + 1) l0) by (auto; lia).
  replace (i - 1 + 1) with i by lia.
  rewrite (lines_between_cons lines i (i + 1) l1) by (auto; lia).
  rewrite (lines_between_cons lines (i + 1) (i + 1) l2) by (auto; lia).
  now rewrite lines_between_empty by lia.
Qed.

Lemma lines_between_In (lines : list str) (a b i : Z) (line : str) :
  a <= i <= b -> line_at lines i = Some line ->
  In line (lines_between lines a b).
Proof.
  intros Hi Hl. unfold lines_between. apply in_flat_map.
  exists i. split; [apply range_In; lia|]. rewrite Hl. now left.
Qed.

Lemma lines_between_incl (lines : list str) (a b : Z) (line : str) :
  In line (lines_between lines a b) -> In line lines.
Proof.
  unfold lines_between. intros H. apply in_flat_map in H as (k & _ & Hk).
  destruct (line_at lines k) as [l|] eqn:E; [|contradiction].
  destruct Hk as [<-|[]]. unfold line_at in E.
  destruct (k <? 1); [discriminate|]. now apply nth_error_In in E.
Qed.

(** What a search returns, result by result: for each document in turn,
    and for each of its matching lines in turn, the document, the line
    number, and the highlighted join of the context window of the line. *)
Lemma search_all_windows (fs : filesystem) (md_paths : list str) (query : str)
      (context : Z) :
  0 <= context ->
  Forall (readable fs) md_paths ->
  search_all fs md_paths query context
  = Ok (flat_map
          (fun p =>
             map (fun i =>
                    (p, i,
                     PyRe.sub_literal_ci query bracket
                       (join nl (context_window (document_lines fs p) i context))))
                 (matching_line_numbers query (document_lines fs p)))
          md_paths).
Proof.
  intros Hc Hread. rewrite (search_all_readable _ _ _ _ Hread). f_equal.
  apply flat_map_ext. intros p. unfold document_results.
  apply map_ext_in. intros i Hi.
  apply matching_line_numbers_In in Hi as (line & Hi & _ & _).
  now rewrite (snippet_at_window query context _ i Hc Hi).
Qed.

(** C5.  With a context [c >= 0], every line [i] that matches, in a
    document of [N] lines, yields a result, and its snippet before
    highlighting is the join, in their order and as they are written, of
    the lines from [max(1, i - c)] to [min(N, i + c)]: with context 0 the
    matched line alone, and for a match on line 1 with context 1 the lines
    1 and 2.  The results are those snippets and no other: one for each
    matching line of each document, in order. *)
Theorem search_all_context_window (fs : filesystem) (md_paths : list str)
        (query : str) (context : Z) :
  0 <= context ->
  Forall (readable fs) md_paths ->
  exists results,
    search_all fs md_paths query context = Ok results
    /\ results
       = flat_map
           (fun p =>
              let lines := document_lines fs p in
              map (fun i =>
                     (p, i,
                      PyRe.sub_literal_ci query bracket
                        (join nl (lines_between lines (Z.max 1 (i - context))
                                                (Z.min (len lines) (i + context))))))
                  (matching_line_numbers query lines))
           md_paths
    /\ (forall p i line,
          In p md_paths ->
          line_at (document_lines fs p) i = Some line ->
          contains (lower query) (lower line) = true ->
          let lines := document_lines fs p in
          In (p, i,
              PyRe.sub_literal_ci query bracket
                (join nl (lines_between lines (Z.max 1 (i - context))
                                        (Z.min (len lines) (i + context)))))
             results
          /\ (context = 0 ->
              In (p, i, PyRe.sub_literal_ci query bracket line) results)
          /\ (context = 1 -> i = 1 ->
              forall l2, line_at lines 2 = Some l2 ->
              In (p, 1, PyRe.sub_literal_ci query bracket (line ++ nl ++ l2))
                 results))
    /\ Forall
         (fun r =>
            let '(p, i, snippet) := r in
            let lines := document_lines fs p in
            1 <= i <= len lines
            /\ snippet
               = PyRe.sub_literal_ci query bracket
                   (join nl (lines_between lines (Z.max 1 (i - context))
                                           (Z.min (len lines) (i + context))))
            /\ (context = 0 ->
                exists line,
                  line_at lines i = Some line
                  /\ snippet = PyRe.sub_literal_ci query bracket line)
            /\ (context = 1 -> i = 1 -> 2 <= len lines ->
                exists l1 l2,
                  line_at lines 1 = Some l1 /\ line_at lines 2 = Some l2
                  /\ snippet = PyRe.sub_literal_ci query bracket (l1 ++ nl ++ l2)))
         results.
Proof.
  intros Hc Hread. eexists.
  split; [apply (search_all_windows _ _ _ _ Hc Hread)|].
  split; [reflexivity|].
  assert (Hin : forall p i line,
             In p md_paths ->
             line_at (document_lines fs p) i = Some line ->
             contains (lower query) (lower line) = true ->
             In (p, i,
                 PyRe.sub_literal_ci query bracket
                   (join nl (context_window (document_lines fs p) i context)))
                (flat_map
                   (fun p =>
                      map (fun i =>
                             (p, i,
                              PyRe.sub_literal_ci query bracket
                                (join nl (context_window (document_lines fs p) i context))))
                          (matching_line_numbers query (document_lines fs p)))
                   md_paths)).
  { intros p i line Hp Hline Hm. apply in_flat_map. exists p. split; [exact Hp|].
    apply in_map_iff. exists i. split; [reflexivity|].
    apply matching_line_numbers_In. exists line.
    split; [exact (line_at_Some _ _ _ Hline)|]. now split. }
  split.
  - intros p i line Hp Hline Hm. cbv zeta.
    specialize (Hin p i line Hp Hline Hm).
    split; [exact Hin|]. split.
    + intros ->. now rewrite (context_window_zero _ i line Hline) in Hin.
    + intros -> -> l2 Hl2.
      now rewrite (context_window_first_line _ line l2 Hline Hl2) in Hin.
  - clear Hin. apply Forall_forall. intros [[p i] snippet] Hin.
    apply in_flat_map in Hin as (p' & _ & Hin).
    apply in_map_iff in Hin as (j & Heq & Hj).
    inversion Heq; subst p' j snippet. clear Heq.
    apply matching_line_numbers_In in Hj as (line & Hi & Hline & _).
    cbv zeta. split; [exact Hi|].
    split; [reflexivity|]. split.
    + intros ->. exists line. split; [exact Hline|].
      now rewrite (context_window_zero _ i line Hline).
    + intros -> -> HN.
      destruct (line_at_in_range (document_lines fs p) 2) as [l2 Hl2]; [lia|].
      exists line, l2. repeat split; try assumption.
      now rewrite (context_window_first_line _ line l2 Hline Hl2).
Qed.

Lemma search_all_context_window_witness :
  0 <= 1 /\
  Forall (readable sample_fs) [u "guia.md"; u "notas.md"] /\
  search_all sample_fs [u "guia.md"; u "notas.md"] (u "cat") 1
  = Ok [(u "guia.md", 1, u "The [Cat] sat" ++ nl ++ u "on the mat");
        (u "guia.md", 3, u "on the mat" ++ nl ++ u "con[cat] [cAt]");
        (u "notas.md", 1, u "[cat]alogo" ++ nl)] /\
  exists results,
    search_all sample_fs [u "guia.md"; u "notas.md"] (u "cat") 1 = Ok results
    /\ results
       = flat_map
           (fun p =>
              let lines := document_lines sample_fs p in
              map (fun i =>
                     (p, i,
                      PyRe.sub_literal_ci (u "cat") bracket
                        (join nl (lines_between lines (Z.max 1 (i - 1))
                                                (Z.min (len lines) (i + 1))))))
                  (matching_line_numbers (u "cat") lines))
           [u "guia.md"; u "notas.md"]
    /\ (forall p i line,
          In p [u "guia.md"; u "notas.md"] ->
          line_at (document_lines sample_fs p) i = Some line ->
          contains (lower (u "cat")) (lower line) = true ->
          let lines := document_lines sample_fs p in
          In (p, i,
              PyRe.sub_literal_ci (u "cat") bracket
                (join nl (lines_between lines (Z.max 1 (i - 1))
                                        (Z.min (len lines) (i + 1)))))
             results
          /\ (1 = 0 ->
              In (p, i, PyRe.sub_literal_ci (u "cat") bracket line) results)
          /\ (1 = 1 -> i = 1 ->
              forall l2, line_at lines 2 = Some l2 ->
              In (p, 1, PyRe.sub_literal_ci (u "cat") bracket (line ++ nl ++ l2))
                 results))
    /\ Forall
         (fun r =>
            let '(p, i, snippet) := r in
            let lines := document_lines sample_fs p in
            1 <= i <= len lines
            /\ snippet
               = PyRe.sub_literal_ci (u "cat") bracket
                   (join nl (lines_between lines (Z.max 1 (i - 1))
                                           (Z.min (len lines) (i + 1))))
            /\ (1 = 0 ->
                exists line,
                  line_at lines i = Some line
                  /\ snippet = PyRe.sub_literal_ci (u "cat") bracket line)
            /\ (1 = 1 -> i = 1 -> 2 <= len lines ->
                exists l1 l2,
                  line_at lines 1 = Some l1 /\ line_at lines 2 = Some l2
                  /\ snippet = PyRe.sub_literal_ci (u "cat") bracket (l1 ++ nl ++ l2)))
         results.
Proof.
  split; [lia|]. split; [exact sample_fs_readable|].
  split; [vm_compute; reflexivity|].
  apply (search_all_context_window sample_fs [u "guia.md"; u "notas.md"] (u "cat") 1);
    [lia | exact sample_fs_readable].
Defined.

(** The snippets of "cat" in the first sample document, with context 1:
    lines 1-2 around line 1, lines 2-3 around line 3. *)
Example search_all_sample_snippets :
  search_all sample_fs [u "guia.md"] (u "cat") 1
  = Ok [(u "guia.md", 1, u "The [Cat] sat" ++ nl ++ u "on the mat");
        (u "guia.md", 3, u "on the mat" ++ nl ++ u "con[cat] [cAt]")].
Proof. vm_compute. reflexivity. Qed.

(** ** A document that cannot be read *)

(** C3, as the specification states it, fails: a document that cannot be
    read is not skipped.  The first sample document alone gives two matches;
    asked for together with a name that cannot be read, whether that name
    comes before or after, the search raises and returns no match. *)
Lemma search_all_unreadable_document_raises :
  sample_fs (u "roto.md") = None
  /\ search_all sample_fs [u "guia.md"] (u "cat") 0
     = Ok [(u "guia.md", 1, u "The [Cat] sat"); (u "guia.md", 3, u "con[cat] [cAt]")]
  /\ search_all sample_fs [u "roto.md"; u "guia.md"] (u "cat") 0 = Raise OSError
  /\ search_all sample_fs [u "guia.md"; u "roto.md"] (u "cat") 0 = Raise OSError.
Proof. vm_compute. repeat split. Qed.

(** C3, amended.  An I/O failure on one document is not recovered from:
    if any document of the sequence cannot be opened or read, whether it
    comes first or last, [search_all] raises [OSError] and returns no
    match, of no document.  The search returns its matches, those of every
    document in turn, when, and only when, every document of the sequence
    can be read. *)
Theorem search_all_read_failure (fs : filesystem) (md_paths : list str)
        (query : str) (context : Z) :
  (Exists (fun p => fs p = None) md_paths ->
   search_all fs md_paths query context = Raise OSError)
  /\ (Forall (readable fs) md_paths ->
      search_all fs md_paths query context
      = Ok (flat_map (fun p => document_results query context p (document_lines fs p))
                     md_paths))
  /\ (forall results,
        search_all fs md_paths query context = Ok results ->
        Forall (readable fs) md_paths).
Proof.
  split; [|split].
  - intros H. rewrite search_all_outcome.
    destruct (forallb _ md_paths) eqn:E; [|reflexivity].
    apply readable_forallb in E. rewrite Forall_forall in E.
    apply Exists_exists in H as (p & Hp & Hnone).
    now destruct (E p Hp).
  - intros H. apply search_all_readable, H.
  - intros results. rewrite search_all_outcome.
    destruct (forallb _ md_paths) eqn:E; [|discriminate].
    intros _. now apply readable_forallb.
Qed.

(** ** Highlighting *)

Lemma match_literal_ci_Some (query : str) :
  forall s m,
  PyRe.match_literal_ci query s = Some m ->
  m = firstn (length query) s /\ (length query <= length s)%nat.
Proof.
  induction query as [|p q IH]; intros s m H.
  - simpl in H. inversion H. split; [reflexivity | simpl; lia].
  - destruct s as [|t s]; [discriminate|].
    cbn [PyRe.match_literal_ci] in H.
    destruct (PyRe.ci_eqb p t); [|discriminate].
    destruct (PyRe.match_literal_ci q s) as [m'|] eqn:Em; [|discriminate].
    inversion H; subst m. destruct (IH s m' Em) as (-> & Hlen).
    split; [reflexivity | simpl; lia].
Qed.

Lemma match_literal_ci_None (query s : str) :
  PyRe.match_literal_ci query s = None <-> ~ occurs_at query s 0.
Proof.
  unfold occurs_at. cbn [skipn plus]. split.
  - intros Hn [_ Hm]. rewrite Hm in Hn. discriminate.
  - intros Hno. destruct (PyRe.match_literal_ci query s) as [m|] eqn:E; [|reflexivity].
    destruct (match_literal_ci_Some query s m E) as (-> & Hlen).
    exfalso. apply Hno. split; [exact Hlen | reflexivity].
Qed.

(** Past a match, the scan goes on with the text behind it. *)
Lemma sub_literal_ci_skip (query : str) (repl : str -> str) :
  forall skip s, (skip <= length s)%nat ->
  PyRe.sub_literal_ci_from query repl skip s
  = PyRe.sub_literal_ci query repl (skipn skip s).
Proof.
  induction skip as [|k IH]; intros s H; [reflexivity|].
  destruct s as [|c s]; [simpl in H; lia|].
  cbn [PyRe.sub_literal_ci_from skipn]. apply IH. simpl in H. lia.
Qed.

Lemma sub_literal_ci_match (query : str) (repl : str -> str) (s m : str) :
  query <> [] ->
  PyRe.match_literal_ci query s = Some m ->
  PyRe.sub_literal_ci query repl s
  = repl m ++ PyRe.sub_literal_ci query repl (skipn (length query) s).
Proof.
  intros Hq Hm.
  destruct (match_literal_ci_Some query s m Hm) as (Heq & Hlen).
  destruct query as [|p q]; [contradiction|].
  destruct s as [|c s]; [discriminate|].
  unfold PyRe.sub_literal_ci at 1. cbn [PyRe.sub_literal_ci_from].
  rewrite Hm. cbn [length firstn] in Heq. rewrite Heq.
  rewrite sub_literal_ci_skip.
  - rewrite length_firstn. cbn [length skipn] in *.
    now replace (Nat.min (length q) (length s)) with (length q) by lia.
  - rewrite length_firstn. lia.
Qed.

Lemma sub_literal_ci_no_match (query : str) (repl : str -> str) (c : ascii)
      (s : str) :
  PyRe.match_literal_ci query (c :: s) = None ->
  PyRe.sub_literal_ci query repl (c :: s)
  = c :: PyRe.sub_literal_ci query repl s.
Proof.
  intros Hm. unfold PyRe.sub_literal_ci at 1. cbn [PyRe.sub_literal_ci_from].
  now rewrite Hm.
Qed.

Lemma occurs_at_tail (query : str) (c : ascii) (s : str) (k : nat) :
  occurs_at query (c :: s) (S k) <-> occurs_at query s k.
Proof. unfold occurs_at. cbn [length skipn]. split; intros [H1 H2]; split; auto; lia. Qed.

(** The leftmost occurrence is put between brackets as it stands in the
    text, and the scan goes on behind it. *)
Lemma sub_literal_ci_leftmost (query : str) (repl : str -> str) :
  query <> [] ->
  forall k s,
  occurs_at query s k ->
  (forall j, (j < k)%nat -> ~ occurs_at query s j) ->
  PyRe.sub_literal_ci query repl s
  = firstn k s ++ repl (firstn (length query) (skipn k s))
    ++ PyRe.sub_literal_ci query repl (skipn (k + length query) s).
Proof.
  intros Hq. induction k as [|k IH]; intros s Hocc Hnone.
  - destruct Hocc as [Hlen Hm]. cbn [skipn firstn app plus] in *.
    now apply sub_literal_ci_match.
  - destruct s as [|c s].
    { destruct Hocc as [Hlen _]. simpl in Hlen. lia. }
    rewrite sub_literal_ci_no_match.
    2:{ apply match_literal_ci_None. apply Hnone. lia. }
    cbn [firstn skipn plus app]. f_equal.
    apply IH.
    + now apply occurs_at_tail in Hocc.
    + intros j Hj Hoc. apply (Hnone (S j)); [lia|]. now apply occurs_at_tail.
Qed.

Lemma sub_literal_ci_none (query : str) (repl : str -> str) :
  query <> [] ->
  forall s, (forall k, ~ occurs_at query s k) ->
  PyRe.sub_literal_ci query repl s = s.
Proof.
  intros Hq. induction s as [|c s IH]; intros Hnone.
  - destruct query; [contradiction | reflexivity].
  - rewrite sub_literal_ci_no_match.
    + f_equal. apply IH. intros k Hk. apply (Hnone (S k)). now apply occurs_at_tail.
    + apply match_literal_ci_None, Hnone.
Qed.

(** With the empty query every position is an empty match. *)
Lemma sub_literal_ci_empty (repl : str -> str) (s : str) :
  PyRe.sub_literal_ci [] repl s
  = flat_map (fun c => repl [] ++ [c]) s ++ repl [].
Proof.
  unfold PyRe.sub_literal_ci.
  induction s as [|c s IH]; [reflexivity|].
  cbn [PyRe.sub_literal_ci_from PyRe.match_literal_ci flat_map].
  rewrite IH, <- !app_assoc. reflexivity.
Qed.

Lemma contains_infix (x pre post : str) : contains x (pre ++ x ++ post) = true.
Proof.
  assert (Hs : forall a b, startswith a (a ++ b) = true).
  { induction a as [|c a IH]; intros b; [reflexivity|].
    cbn [app startswith]. unfold char_eqb. now rewrite Ascii.eqb_refl, IH. }
  induction pre as [|c pre IH].
  - cbn [app]. destruct x as [|a x]; [apply contains_empty|].
    cbn [app contains]. change (a :: x ++ post) with ((a :: x) ++ post).
    now rewrite Hs.
  - cbn [app contains]. rewrite IH. apply orb_true_r.
Qed.

(** C2, as the specification states it, fails on occurrences that overlap.
    The query "aba" occurs in "abABA" at offset 0, as "abA", and at offset 2,
    as "ABA"; only the first is put between brackets, and the highlighted
    text holds no "[ABA]". *)
Lemma highlight_overlapping_occurrence :
  occurs_at (u "aba") (u "abABA") 0
  /\ occurs_at (u "aba") (u "abABA") 2
  /\ firstn 3 (skipn 2 (u "abABA")) = u "ABA"
  /\ PyRe.sub_literal_ci (u "aba") bracket (u "abABA") = u "[abA]BA"
  /\ ~ bracketed_in (PyRe.sub_literal_ci (u "aba") bracket (u "abABA")) (u "ABA").
Proof.
  repeat split; try (vm_compute; lia); try reflexivity.
  intros (pre & post & H).
  assert (Hc := contains_infix (bracket (u "ABA")) pre post).
  rewrite <- H in Hc. vm_compute in Hc. discriminate.
Qed.

Lemma occurs_at_skipn (query s : str) (n j : nat) :
  (n <= length s)%nat ->
  occurs_at query (skipn n s) j <-> occurs_at query s (j + n).
Proof.
  intros Hn. unfold occurs_at. rewrite skipn_skipn, length_skipn.
  split; intros [H1 H2]; split; auto; lia.
Qed.

Lemma bracketed_in_behind (pre out m : str) :
  bracketed_in out m -> bracketed_in (pre ++ out) m.
Proof.
  intros (a & b & ->). exists (pre ++ a), b. now rewrite <- app_assoc.
Qed.

(** An occurrence that no earlier occurrence overlaps is put between
    brackets. *)
Lemma sub_literal_ci_clear_occurrence (query : str) :
  query <> [] ->
  forall n s k,
  (length s <= n)%nat ->
  occurs_at query s k ->
  (forall j, occurs_at query s j -> (j < k)%nat -> (j + length query <= k)%nat) ->
  bracketed_in (PyRe.sub_literal_ci query bracket s)
               (firstn (length query) (skipn k s)).
Proof.
  intros Hq. induction n as [|n IH]; intros s k Hn Hocc Hclear.
  - destruct s; [|simpl in Hn; lia].
    destruct Hocc as [Hlen _]. destruct query; [contradiction | simpl in Hlen; lia].
  - destruct s as [|c s].
    { destruct Hocc as [Hlen _]. destruct query; [contradiction | simpl in Hlen; lia]. }
    destruct (PyRe.match_literal_ci query (c :: s)) as [m|] eqn:Em.
    + (* an occurrence at the head *)
      destruct (match_literal_ci_Some _ _ _ Em) as (Hm & Hlen).
      rewrite (sub_literal_ci_match query bracket (c :: s) m Hq Em).
      destruct k as [|k].
      * exists [], (PyRe.sub_literal_ci query bracket (skipn (length query) (c :: s))).
        cbn [skipn app]. now rewrite Hm.
      * assert (H0 : occurs_at query (c :: s) 0).
        { split; [lia|]. cbn [skipn]. now rewrite <- Hm. }
        pose proof (Hclear 0%nat H0 ltac:(lia)) as Hk. cbn [plus] in Hk.
        apply bracketed_in_behind.
        replace (skipn (S k) (c :: s))
          with (skipn (S k - length query) (skipn (length query) (c :: s)))
          by (rewrite skipn_skipn; f_equal; lia).
        apply IH.
        -- rewrite length_skipn. destruct query; [contradiction|].
           cbn [length] in *. lia.
        -- apply occurs_at_skipn; [exact Hlen|].
           now replace (S k - length query + length query)%nat with (S k) by lia.
        -- intros j Hj Hlt. apply occurs_at_skipn in Hj; [|exact Hlen].
           specialize (Hclear _ Hj). lia.
    + (* none at the head *)
      rewrite (sub_literal_ci_no_match query bracket c s Em).
      destruct k as [|k].
      { apply match_literal_ci_None in Em. contradiction. }
      apply (bracketed_in_behind [c]). cbn [skipn].
      apply IH.
      * simpl in Hn. lia.
      * now apply occurs_at_tail in Hocc.
      * intros j Hj Hlt. apply (occurs_at_tail query c) in Hj.
        specialize (Hclear _ Hj). lia.
Qed.

Lemma occurs_at_empty_query (s : str) : occurs_at [] s 0.
Proof. split; [cbn [length]; lia | reflexivity]. Qed.

(** C2, amended.  [search_all] highlights by one scan from the left, matching
    whatever the case, for every query.  An occurrence of the query that no
    earlier occurrence overlaps is put between brackets, in the casing of
    the text and not of the query.  For a query that is not empty the
    leftmost occurrence is, and the scan goes on behind it, so an occurrence
    that starts inside one already put between brackets is passed over; for
    the empty query every position of the text gets its pair of brackets.
    A text without occurrence is left as it is.  For the query "cat" and
    the line "The Cat sat" the snippet is "The [Cat] sat". *)
Theorem highlight_scans_left_to_right (query snippet : str) :
  (forall k,
     occurs_at query snippet k ->
     (forall j, occurs_at query snippet j -> (j < k)%nat ->
                (j + length query <= k)%nat) ->
     bracketed_in (PyRe.sub_literal_ci query bracket snippet)
                  (firstn (length query) (skipn k snippet)))
  /\ (query <> [] ->
      forall k,
        occurs_at query snippet k ->
        (forall j, (j < k)%nat -> ~ occurs_at query snippet j) ->
        PyRe.sub_literal_ci query bracket snippet
        = firstn k snippet
          ++ bracket (firstn (length query) (skipn k snippet))
          ++ PyRe.sub_literal_ci query bracket (skipn (k + length query) snippet))
  /\ (query = [] ->
      PyRe.sub_literal_ci query bracket snippet
      = flat_map (fun c => bracket [] ++ [c]) snippet ++ bracket [])
  /\ ((forall k, ~ occurs_at query snippet k) ->
      PyRe.sub_literal_ci query bracket snippet = snippet)
  /\ search_all cat_fs [u "gato.md"] (u "cat") 1
     = Ok [(u "gato.md", 1, u "The [Cat] sat")].
Proof.
  split; [|split; [|split; [|split]]].
  - intros k Hocc Hclear. destruct query as [|p q].
    + rewrite sub_literal_ci_empty. cbn [length firstn].
      now exists (flat_map (fun c => bracket [] ++ [c]) snippet), [].
    + now apply (sub_literal_ci_clear_occurrence (p :: q) ltac:(discriminate)
                   (length snippet)).
  - intros Hq k. now apply sub_literal_ci_leftmost.
  - intros ->. apply sub_literal_ci_empty.
  - intros Hnone. destruct query as [|p q].
    + exfalso. exact (Hnone 0%nat (occurs_at_empty_query snippet)).
    + now apply sub_literal_ci_none.
  - vm_compute. reflexivity.
Qed.

(** ** The order of names and [sorted] *)

Lemma str_eqb_eq (a b : str) : str_eqb a b = true <-> a = b.
Proof.
  revert b; induction a as [|x a IH]; intros [|y b]; simpl;
    try (split; [discriminate | congruence]); [tauto|].
  unfold char_eqb. rewrite andb_true_iff, Ascii.eqb_eq, IH.
  split; [intros [-> ->]; reflexivity | intros H; inversion H; auto].
Qed.

Lemma str_eqb_refl (a : str) : str_eqb a a = true.
Proof. now apply str_eqb_eq. Qed.

Lemma str_leb_total (a b : str) : str_leb a b = false -> str_leb b a = true.
Proof.
  revert b; induction a as [|x a IH]; intros [|y b]; simpl; try congruence.
  destruct (Z.ltb_spec (code x) (code y)), (Z.ltb_spec (code y) (code x));
    try congruence; try lia. apply IH.
Qed.

Lemma str_leb_trans (a b c : str) :
  str_leb a b = true -> str_leb b c = true -> str_leb a c = true.
Proof.
  revert b c; induction a as [|x a IH]; intros [|y b] [|z c]; simpl;
    try congruence.
  destruct (Z.ltb_spec (code x) (code y)), (Z.ltb_spec (code y) (code x)),
           (Z.ltb_spec (code y) (code z)), (Z.ltb_spec (code z) (code y)),
           (Z.ltb_spec (code x) (code z)), (Z.ltb_spec (code z) (code x));
    try congruence; try lia. apply IH.
Qed.

Lemma insert_sorted_In (x y : str) (l : list str) :
  In y (insert_sorted x l) <-> y = x \/ In y l.
Proof.
  induction l as [|z l IH]; simpl; [intuition|].
  destruct (str_leb x z); simpl; [intuition|]. rewrite IH. intuition.
Qed.

Lemma insert_sorted_sorted (x : str) (l : list str) :
  StronglySorted str_le l -> StronglySorted str_le (insert_sorted x l).
Proof.
  induction 1 as [|z l Hs IH Hz]; simpl.
  - repeat constructor.
  - destruct (str_leb x z) eqn:E.
    + constructor; [now constructor|].
      constructor; [exact E|].
      rewrite Forall_forall in *. intros y Hy.
      apply (str_leb_trans x z y); [exact E | now apply Hz].
    + constructor; [exact IH|].
      rewrite Forall_forall in *. intros y Hy.
      apply insert_sorted_In in Hy as [->|Hy]; [|now apply Hz].
      now apply str_leb_total.
Qed.

Lemma sorted_sorted (l : list str) : StronglySorted str_le (sorted l).
Proof.
  induction l as [|x l IH]; simpl; [constructor|].
  now apply insert_sorted_sorted.
Qed.

Lemma sorted_In (x : str) (l : list str) : In x (sorted l) <-> In x l.
Proof.
  induction l as [|y l IH]; simpl; [tauto|].
  rewrite insert_sorted_In, IH. intuition.
Qed.

(** ** Paths into the directory *)

Lemma rfind_from_absent (c : ascii) (s : str) :
  forallb (fun x => negb (char_eqb x c)) s = true ->
  forall i best, rfind_from c s i best = best.
Proof.
  induction s as [|x s IH]; intros H i best; [reflexivity|].
  simpl in H. apply andb_true_iff in H as [Hx Hs].
  cbn [rfind_from]. apply negb_true_iff in Hx. rewrite Hx. now apply IH.
Qed.

Lemma rfind_from_app (c : ascii) (s1 s2 : str) :
  forall i best,
  rfind_from c (s1 ++ s2) i best
  = rfind_from c s2 (i + len s1) (rfind_from c s1 i best).
Proof.
  unfold len. induction s1 as [|x s1 IH]; intros i best.
  - simpl. now rewrite Z.add_0_r.
  - cbn [app rfind_from length]. rewrite IH. f_equal. lia.
Qed.

Lemma rfind_behind_sep (a name : str) :
  slash_free name ->
  rfind OsPath.sep (a ++ [OsPath.sep] ++ name) = len a.
Proof.
  intros H. unfold rfind. rewrite rfind_from_app. cbn [app rfind_from].
  unfold char_eqb at 1. rewrite Ascii.eqb_refl.
  now rewrite rfind_from_absent.
Qed.

(** The last component of a path into the directory is the name. *)
Lemma basename_join (root name : str) :
  slash_free name -> OsPath.basename (OsPath.join root name) = name.
Proof.
  intros H. unfold OsPath.join.
  assert (Hstart : startswith [OsPath.sep] name = false).
  { destruct name as [|c name]; [reflexivity|].
    simpl in H. apply andb_true_iff in H as [Hc _]. apply negb_true_iff in Hc.
    cbn [startswith]. unfold char_eqb in *.
    rewrite Ascii.eqb_sym, Hc. reflexivity. }
  rewrite Hstart. destruct root as [|r root].
  - cbn [app]. unfold OsPath.basename, rfind.
    now rewrite rfind_from_absent.
  - unfold OsPath.endswith_sep.
    destruct (rev (r :: root)) as [|c t] eqn:Er.
    { apply (f_equal (@length _)) in Er. rewrite length_rev in Er. discriminate. }
    assert (Hroot : r :: root = rev t ++ [c]).
    { rewrite <- (rev_involutive (r :: root)), Er. reflexivity. }
    destruct (char_eqb c OsPath.sep) eqn:Ec.
    + unfold char_eqb in Ec. apply Ascii.eqb_eq in Ec. subst c.
      rewrite Hroot, <- app_assoc. unfold OsPath.basename.
      rewrite rfind_behind_sep by exact H.
      unfold len. replace (Z.to_nat (Z.of_nat (length (rev t)) + 1))
        with (length (rev t ++ [OsPath.sep])) by (rewrite length_app; simpl; lia).
      rewrite app_assoc. now rewrite skipn_app, skipn_all, Nat.sub_diag.
    + unfold OsPath.basename. rewrite rfind_behind_sep by exact H.
      unfold len. replace (Z.to_nat (Z.of_nat (length (r :: root)) + 1))
        with (length ((r :: root) ++ [OsPath.sep])) by (rewrite length_app; simpl; lia).
      rewrite app_assoc. now rewrite skipn_app, skipn_all, Nat.sub_diag.
Qed.

Lemma join_injective (root a b : str) :
  slash_free a -> slash_free b ->
  OsPath.join root a = OsPath.join root b -> a = b.
Proof.
  intros Ha Hb H. apply (f_equal OsPath.basename) in H.
  now rewrite !basename_join in H.
Qed.

(** ** The inventory *)

Lemma list_files_loop (root : str) (d : OsPath.directory) :
  forall names mds imgs,
  fold_left
    (fun (acc : list str * list str) (name : str) =>
       let '(mds, imgs) := acc in
       let p := OsPath.join root name in
       if negb (OsPath.isfile root d p) then (mds, imgs)
       else
         let ext := lower (snd (OsPath.splitext name)) in
         if mem ext MD_EXT then (mds ++ [p], imgs)
         else if mem ext IMG_EXT then (mds, imgs ++ [p])
         else (mds, imgs))
    names (mds, imgs)
  = (mds ++ map (OsPath.join root) (filter (is_markdown root d) names),
     imgs ++ map (OsPath.join root) (filter (is_image root d) names)).
Proof.
  induction names as [|name names IH]; intros mds imgs.
  - simpl. now rewrite !app_nil_r.
  - cbn [fold_left filter].
    assert (Em : is_markdown root d name
                 = OsPath.isfile root d (OsPath.join root name)
                   && mem (lower (snd (OsPath.splitext name))) MD_EXT)
      by reflexivity.
    assert (Ei : is_image root d name
                 = OsPath.isfile root d (OsPath.join root name)
                   && negb (mem (lower (snd (OsPath.splitext name))) MD_EXT)
                   && mem (lower (snd (OsPath.splitext name))) IMG_EXT)
      by reflexivity.
    rewrite Em, Ei. clear Em Ei.
    destruct (OsPath.isfile root d (OsPath.join root name)); cbn [negb andb].
    + destruct (mem (lower (snd (OsPath.splitext name))) MD_EXT); cbn [negb andb].
      * rewrite IH. cbn [map]. now rewrite <- app_assoc.
      * destruct (mem (lower (snd (OsPath.splitext name))) IMG_EXT).
        -- rewrite IH. cbn [map]. now rewrite <- app_assoc.
        -- apply IH.
    + apply IH.
Qed.

Lemma list_files_filter (root : str) (d : OsPath.directory) :
  list_files root d
  = (map (OsPath.join root)
         (filter (is_markdown root d) (sorted (OsPath.listdir d))),
     map (OsPath.join root)
         (filter (is_image root d) (sorted (OsPath.listdir d)))).
Proof. unfold list_files. now rewrite list_files_loop. Qed.

Lemma basename_listed (root : str) (names : list str) :
  Forall slash_free names ->
  map OsPath.basename (map (OsPath.join root) names) = names.
Proof.
  induction 1 as [|name names Hn _ IH]; [reflexivity|].
  cbn [map]. now rewrite basename_join, IH.
Qed.

Lemma sorted_slash_free (names : list str) :
  Forall slash_free names -> Forall slash_free (sorted names).
Proof.
  rewrite !Forall_forall. intros H x Hx. apply H. now apply sorted_In.
Qed.

Lemma filter_Forall {A : Type} (P : A -> Prop) (f : A -> bool) (l : list A) :
  Forall P l -> Forall P (filter f l).
Proof.
  rewrite !Forall_forall. intros H x Hx. apply filter_In in Hx as [Hx _]. auto.
Qed.

(** No extension is in both sets. *)
Lemma ext_sets_disjoint (ext : str) :
  mem ext MD_EXT = true -> mem ext IMG_EXT = false.
Proof.
  unfold mem, MD_EXT. cbn [existsb]. rewrite orb_false_r, orb_true_iff.
  intros [H|H]; apply str_eqb_eq in H; subst ext; reflexivity.
Qed.

(** What [os.path.isfile] finds for a name of a well-formed directory. *)
Lemma isfile_entry (root : str) (d : OsPath.directory) (name : str)
      (n : OsPath.node) :
  well_formed d -> In (name, n) d ->
  OsPath.isfile root d (OsPath.join root name) = OsPath.isfile_node n.
Proof.
  unfold well_formed, OsPath.isfile, OsPath.listdir. intros [Hsf Hnd] Hin.
  assert (Hname : slash_free name).
  { rewrite Forall_forall in Hsf. apply Hsf.
    change name with (fst (name, n)). now apply in_map. }
  induction d as [|[name' n'] d IH]; [contradiction|].
  cbn [map fst] in Hsf, Hnd. inversion Hsf as [|? ? Hsf1 Hsf2]; subst.
  inversion Hnd as [|? ? Hnotin Hnd']; subst.
  cbn [find fst].
  destruct (str_eqb (OsPath.join root name') (OsPath.join root name)) eqn:E.
  - apply str_eqb_eq in E. apply join_injective in E; [|assumption..]. subst name'.
    destruct Hin as [Heq|Hin]; [now inversion Heq|].
    exfalso. apply Hnotin. change name with (fst (name, n)). now apply in_map.
  - destruct Hin as [Heq|Hin].
    + inversion Heq; subst. now rewrite str_eqb_refl in E.
    + now apply IH.
Qed.

Lemma listdir_In (d : OsPath.directory) (name : str) :
  In name (OsPath.listdir d) <-> exists n, In (name, n) d.
Proof.
  unfold OsPath.listdir. rewrite in_map_iff. split.
  - intros ([name' n] & <- & H). now exists n.
  - intros (n & H). now exists (name, n).
Qed.

Lemma listed_In (root : str) (f : str -> bool) (names : list str) (p : str) :
  In p (map (OsPath.join root) (filter f (sorted names))) <->
  exists name, In name names /\ f name = true /\ p = OsPath.join root name.
Proof.
  rewrite in_map_iff. split.
  - intros (name & <- & H). apply filter_In in H as [H Hf].
    apply -> sorted_In in H. exists name. repeat split; assumption.
  - intros (name & H & Hf & ->). exists name. split; [reflexivity|].
    apply filter_In. split; [now apply sorted_In | exact Hf].
Qed.

Lemma listed_name_In (root : str) (f : str -> bool) (names : list str)
      (name : str) :
  Forall slash_free names -> In name names ->
  In (OsPath.join root name) (map (OsPath.join root) (filter f (sorted names)))
  <-> f name = true.
Proof.
  intros Hsf Hin. rewrite listed_In. rewrite Forall_forall in Hsf. split.
  - intros (name' & Hin' & Hf & Heq).
    apply join_injective in Heq; auto. now subst.
  - intros Hf. exists name. repeat split; assumption.
Qed.

Lemma listed_sorted (root : str) (f : str -> bool) (names : list str) :
  Forall slash_free names ->
  StronglySorted str_le
    (map OsPath.basename (map (OsPath.join root) (filter f (sorted names)))).
Proof.
  intros Hsf. rewrite basename_listed.
  - apply filter_sorted, sorted_sorted.
  - apply filter_Forall, sorted_slash_free, Hsf.
Qed.

(** C8.  For every directory, [list_files] returns two lists, the Markdown
    documents and the images, each in ascending order of file name, the
    order of the code points (case-sensitive); a name is classified by its
    extension lowered, so whatever its case; and no file is in both lists,
    the two sets of extensions having nothing in common. *)
Theorem list_files_sorted_disjoint (root : str) (d : OsPath.directory)
        (mds imgs : list str) :
  well_formed d ->
  list_files root d = (mds, imgs) ->
  StronglySorted str_le (map OsPath.basename mds)
  /\ StronglySorted str_le (map OsPath.basename imgs)
  /\ (forall p, In p mds -> ~ In p imgs)
  /\ (forall ext, mem ext MD_EXT = true -> mem ext IMG_EXT = false)
  /\ (forall name,
        In name (OsPath.listdir d) ->
        (In (OsPath.join root name) mds <->
         OsPath.isfile root d (OsPath.join root name) = true
         /\ mem (lower (snd (OsPath.splitext name))) MD_EXT = true)
        /\ (In (OsPath.join root name) imgs <->
            OsPath.isfile root d (OsPath.join root name) = true
            /\ mem (lower (snd (OsPath.splitext name))) MD_EXT = false
            /\ mem (lower (snd (OsPath.splitext name))) IMG_EXT = true)).
Proof.
  intros [Hsf Hnd] Hlist. rewrite list_files_filter in Hlist.
  inversion Hlist; subst mds imgs. clear Hlist.
  split; [now apply listed_sorted|]. split; [now apply listed_sorted|].
  split; [|split; [exact ext_sets_disjoint|]].
  - intros p Hmd Himg.
    apply listed_In in Hmd as (n1 & Hn1 & Hf1 & ->).
    apply listed_In in Himg as (n2 & Hn2 & Hf2 & Heq).
    rewrite Forall_forall in Hsf.
    apply join_injective in Heq; auto. subst n2.
    unfold is_markdown, is_image in *.
    apply andb_true_iff in Hf1 as [_ Hmd].
    apply andb_true_iff in Hf2 as [Hf2 _]. apply andb_true_iff in Hf2 as [_ Hno].
    rewrite Hmd in Hno. discriminate.
  - intros name Hname. split.
    + rewrite (listed_name_In root _ _ name Hsf Hname).
      unfold is_markdown, lowered_ext. now rewrite andb_true_iff.
    + rewrite (listed_name_In root _ _ name Hsf Hname).
      unfold is_image, lowered_ext.
      rewrite !andb_true_iff, negb_true_iff. tauto.
Qed.

Lemma sample_dir_well_formed : well_formed sample_dir.
Proof.
  split.
  - repeat constructor.
  - unfold sample_dir, OsPath.listdir. cbn [map fst].
    repeat constructor; cbn [In]; intros H;
      repeat (destruct H as [H|H]; [discriminate H|]); exact H.
Qed.

Lemma list_files_sorted_disjoint_witness :
  well_formed sample_dir /\
  list_files (u "docs") sample_dir
  = ([u "docs/apuntes.markdown"; u "docs/enlace.md"; u "docs/indice.MD"],
     [u "docs/Logo.png"]) /\
  StronglySorted str_le
    (map OsPath.basename
         [u "docs/apuntes.markdown"; u "docs/enlace.md"; u "docs/indice.MD"])
  /\ StronglySorted str_le (map OsPath.basename [u "docs/Logo.png"])
  /\ (forall p,
        In p [u "docs/apuntes.markdown"; u "docs/enlace.md"; u "docs/indice.MD"] ->
        ~ In p [u "docs/Logo.png"])
  /\ (forall ext, mem ext MD_EXT = true -> mem ext IMG_EXT = false)
  /\ (forall name,
        In name (OsPath.listdir sample_dir) ->
        (In (OsPath.join (u "docs") name)
            [u "docs/apuntes.markdown"; u "docs/enlace.md"; u "docs/indice.MD"] <->
         OsPath.isfile (u "docs") sample_dir (OsPath.join (u "docs") name) = true
         /\ mem (lower (snd (OsPath.splitext name))) MD_EXT = true)
        /\ (In (OsPath.join (u "docs") name) [u "docs/Logo.png"] <->
            OsPath.isfile (u "docs") sample_dir (OsPath.join (u "docs") name) = true
            /\ mem (lower (snd (OsPath.splitext name))) MD_EXT = false
            /\ mem (lower (snd (OsPath.splitext name))) IMG_EXT = true)).
Proof.
  split; [exact sample_dir_well_formed|]. split; [reflexivity|].
  apply (list_files_sorted_disjoint (u "docs") sample_dir);
    [exact sample_dir_well_formed | reflexivity].
Defined.

(** C9, as the specification states it, fails on symbolic links: a link
    that leads to a regular file is listed.  In the sample directory
    "enlace.md" is such a link, and it is among the Markdown documents; the
    link to a directory, the subdirectory and the text file are not listed. *)
Lemma list_files_lists_symlink :
  In (u "enlace.md", OsPath.Symlink OsPath.Regular) sample_dir
  /\ list_files (u "docs") sample_dir
     = ([u "docs/apuntes.markdown"; u "docs/enlace.md"; u "docs/indice.MD"],
        [u "docs/Logo.png"])
  /\ In (OsPath.join (u "docs") (u "enlace.md"))
        (fst (list_files (u "docs") sample_dir)).
Proof.
  split; [cbn; tauto|]. split; [reflexivity|].
  vm_compute. tauto.
Qed.

(** C9, amended.  For every directory, [list_files] lists neither what is
    not a regular file once symbolic links are followed (a subdirectory, a
    device, a link to nothing or to one of these) nor a file whose
    extension is in neither set; a regular file, or a symbolic link that
    leads to one, is listed by its extension, with the Markdown documents
    or with the images; and nothing is listed but names of the directory. *)
Theorem list_files_excludes (root : str) (d : OsPath.directory)
        (mds imgs : list str) :
  well_formed d ->
  list_files root d = (mds, imgs) ->
  (forall name n,
     In (name, n) d ->
     let p := OsPath.join root name in
     let ext := lower (snd (OsPath.splitext name)) in
     (OsPath.isfile_node n = false -> ~ In p mds /\ ~ In p imgs)
     /\ (mem ext MD_EXT = false -> mem ext IMG_EXT = false ->
         ~ In p mds /\ ~ In p imgs)
     /\ (OsPath.isfile_node n = true -> mem ext MD_EXT = true -> In p mds)
     /\ (OsPath.isfile_node n = true -> mem ext MD_EXT = false ->
         mem ext IMG_EXT = true -> In p imgs))
  /\ (forall p,
        In p mds \/ In p imgs ->
        exists name n,
          In (name, n) d /\ p = OsPath.join root name
          /\ OsPath.isfile_node n = true)
  /\ OsPath.isfile_node OsPath.Directory = false
  /\ OsPath.isfile_node OsPath.Dangling = false
  /\ OsPath.isfile_node (OsPath.Symlink OsPath.Directory) = false
  /\ OsPath.isfile_node (OsPath.Symlink OsPath.Regular) = true.
Proof.
  intros Hwf Hlist. pose proof Hwf as [Hsf Hnd].
  rewrite list_files_filter in Hlist.
  inversion Hlist; subst mds imgs. clear Hlist.
  split; [|split; [|repeat split]].
  - intros name n Hin. cbv zeta.
    assert (Hname : In name (OsPath.listdir d)) by (apply listdir_In; now exists n).
    rewrite !(listed_name_In root _ _ name Hsf Hname).
    unfold is_markdown, is_image, lowered_ext.
    rewrite (isfile_entry root d name n Hwf Hin).
    destruct (OsPath.isfile_node n),
             (mem (lower (snd (OsPath.splitext name))) MD_EXT),
             (mem (lower (snd (OsPath.splitext name))) IMG_EXT);
      cbn [andb negb]; repeat split; intros; congruence.
  - intros p [Hp|Hp]; apply listed_In in Hp as (name & Hname & Hf & ->);
      apply listdir_In in Hname as [n Hin]; exists name, n;
      (split; [exact Hin|]; split; [reflexivity|]);
      rewrite <- (isfile_entry root d name n Hwf Hin);
      unfold is_markdown, is_image in Hf;
      repeat (apply andb_true_iff in Hf as [Hf _]); exact Hf.
Qed.

Lemma list_files_excludes_witness :
  well_formed sample_dir /\
  list_files (u "docs") sample_dir
  = ([u "docs/apuntes.markdown"; u "docs/enlace.md"; u "docs/indice.MD"],
     [u "docs/Logo.png"]) /\
  exists mds imgs,
  (forall name n,
     In (name, n) sample_dir ->
     let p := OsPath.join (u "docs") name in
     let ext := lower (snd (OsPath.splitext name)) in
     (OsPath.isfile_node n = false -> ~ In p mds /\ ~ In p imgs)
     /\ (mem ext MD_EXT = false -> mem ext IMG_EXT = false ->
         ~ In p mds /\ ~ In p imgs)
     /\ (OsPath.isfile_node n = true -> mem ext MD_EXT = true -> In p mds)
     /\ (OsPath.isfile_node n = true -> mem ext MD_EXT = false ->
         mem ext IMG_EXT = true -> In p imgs))
  /\ (forall p,
        In p mds \/ In p imgs ->
        exists name n,
          In (name, n) sample_dir /\ p = OsPath.join (u "docs") name
          /\ OsPath.isfile_node n = true)
  /\ OsPath.isfile_node OsPath.Directory = false
  /\ OsPath.isfile_node OsPath.Dangling = false
  /\ OsPath.isfile_node (OsPath.Symlink OsPath.Directory) = false
  /\ OsPath.isfile_node (OsPath.Symlink OsPath.Regular) = true.
Proof.
  split; [exact sample_dir_well_formed|]. split; [reflexivity|].
  eexists _, _.
  apply (list_files_excludes (u "docs") sample_dir);
    [exact sample_dir_well_formed | reflexivity].
Defined.

(** ** More on the table of contents *)

Lemma dropwhile_snoc {A : Type} (f : A -> bool) (l : list A) (x : A) :
  f x = false -> dropwhile f (l ++ [x]) = dropwhile f l ++ [x].
Proof.
  intros Hx. induction l as [|y l IH]; simpl.
  - now rewrite Hx.
  - destruct (f y); [exact IH | reflexivity].
Qed.

Lemma lstrip_starts_nonspace (s : str) : starts_nonspace (lstrip s).
Proof. unfold starts_nonspace, lstrip. apply dropwhile_head. Qed.

Lemma lstrip_fixed (s : str) : starts_nonspace s -> lstrip s = s.
Proof.
  unfold starts_nonspace, lstrip. destruct s as [|c s]; [reflexivity|].
  intros H. simpl. now rewrite H.
Qed.

Lemma rstrip_starts_nonspace (s : str) :
  starts_nonspace s -> starts_nonspace (rstrip s).
Proof.
  destruct s as [|c s]; [intros _; exact I|].
  unfold starts_nonspace, rstrip. intros Hc. cbn [rev].
  rewrite dropwhile_snoc by exact Hc.
  rewrite rev_app_distr. simpl. exact Hc.
Qed.

Lemma strip_idempotent (s : str) : strip (strip s) = strip s.
Proof.
  unfold strip.
  rewrite (lstrip_fixed (rstrip (lstrip s))).
  - apply rstrip_fixed, rstrip_ends_nonspace.
  - apply rstrip_starts_nonspace, lstrip_starts_nonspace.
Qed.

Lemma header_of_line_Some (line : str) (level : Z) (title : str) :
  header_of_line line = Some (level, title) ->
  1 <= level <= 6 /\ title <> [] /\ strip title = title.
Proof.
  unfold header_of_line. cbv zeta.
  set (t := strip line). set (hashes := takewhile PyRe.is_hash t).
  destruct (Z.leb_spec 1 (len hashes)) as [H1|H1]; [|discriminate].
  destruct (Z.leb_spec (len hashes) 6) as [H6|H6]; [|discriminate].
  cbn [andb].
  destruct (match skipn (length hashes) t with [] => false | c :: _ => isspace c end);
    [|discriminate].
  cbn [andb].
  destruct (str_eqb (strip (skipn (length hashes) t)) []) eqn:E; [discriminate|].
  intros Heq. inversion Heq; subst. repeat split; try lia.
  - intros Hnil. rewrite Hnil in E. discriminate.
  - apply strip_idempotent.
Qed.

Lemma toc_lines (lines : list (Z * str)) :
  map snd (flat_map toc_entry lines)
  = map fst (filter (fun il => is_header (snd il)) lines).
Proof.
  induction lines as [|[i line] lines IH]; [reflexivity|].
  cbn [flat_map filter]. rewrite map_app, IH.
  unfold toc_entry at 1, is_header at 2. cbn [fst snd].
  destruct (header_of_line line) as [[level title]|]; reflexivity.
Qed.

(** Every entry of the table of contents has a level from 1 to 6, a title
    that is not empty and has no whitespace around it, and the number of a
    line of the document; the line numbers go up strictly, so no line is
    entered twice. *)
Theorem build_toc_entries_well_formed (md_text : str) :
  Forall (fun entry =>
            let '(level, title, i) := entry in
            1 <= level <= 6
            /\ title <> [] /\ strip title = title
            /\ 1 <= i <= len (splitlines md_text))
         (build_toc md_text)
  /\ StronglySorted Z.lt (map snd (build_toc md_text)).
Proof.
  rewrite build_toc_flat_map. split.
  - apply Forall_forall. intros [[level title] i] Hin.
    apply in_flat_map in Hin as ([j line] & Hj & Hentry).
    apply enumerate_In in Hj as [Hrange _].
    unfold toc_entry in Hentry. cbn [fst snd] in Hentry.
    destruct (header_of_line line) as [[lv ti]|] eqn:Eh; [|contradiction].
    destruct Hentry as [Heq|[]]. inversion Heq; subst.
    destruct (header_of_line_Some _ _ _ Eh) as (Hl & Hne & Hs).
    repeat split; try assumption; lia.
  - rewrite toc_lines, enumerate_filter.
    apply filter_sorted, range_sorted.
Qed.

(** The second header of the sample is indented and has spaces behind it. *)
Example build_toc_sample_markdown :
  build_toc sample_markdown = [(1, u "Tienda", 1); (2, u "Ventas", 3)].
Proof. vm_compute. reflexivity. Qed.

(** ** More on the paginator *)

Lemma splitlines_from_nil (s : str) :
  forall cur, splitlines_from cur s = [] -> cur = [] /\ s = [].
Proof.
  induction s as [|c rest IH]; intros cur H; simpl in H.
  - destruct cur; [auto | discriminate].
  - destruct (is_linebreak c).
    + destruct rest as [|d rest']; [discriminate|].
      destruct (char_eqb c "013"%char && char_eqb d "010"%char); discriminate.
    + apply IH in H as [Hcur _]. destruct cur; discriminate.
Qed.

Lemma wrapped_lines_nil (wrap : str -> Z -> list str) (cols : Z) (text : str) :
  wrapped_lines wrap cols text = [] <-> text = [].
Proof.
  unfold wrapped_lines. split.
  - intros H. destruct (splitlines text) as [|line lines] eqn:E.
    + now apply splitlines_from_nil in E.
    + cbn [flat_map] in H. apply app_eq_nil in H as [H _].
      unfold wrapped_or_blank in H. destruct (wrap line cols); discriminate.
  - intros ->. reflexivity.
Qed.

Lemma paginate_empty_text (wrap : str -> Z -> list str) (terminal : Z * Z)
      (title : str) (width height : Z) :
  paginate wrap terminal [] title width height = Ok [].
Proof.
  unfold paginate. destruct terminal as [c r].
  destruct ((width <=? 0) || (height <=? 0)); reflexivity.
Qed.

(** Nothing is put on the terminal for the empty text, not even the
    title, and only for it: a text of one empty line already gives a
    screen. *)
Theorem paginate_no_screen_iff_empty (wrap : str -> Z -> list str)
        (terminal : Z * Z) (text title : str) (cols rows : Z) :
  0 < cols -> 0 < rows ->
  (paginate wrap terminal text title cols rows = Ok [] <-> text = []).
Proof.
  intros Hc Hr. split.
  - intros H.
    destruct (paginate_pages wrap terminal text title cols rows Hc Hr)
      as (screens & Hp & _ & Hcat & _).
    rewrite Hp in H. inversion H; subst screens. cbn [map concat] in Hcat.
    symmetry in Hcat. now apply wrapped_lines_nil in Hcat.
  - intros ->. apply paginate_empty_text.
Qed.

Lemma paginate_no_screen_iff_empty_witness :
  0 < 80 /\ 0 < 24 /\
  (paginate wrap_fitting (100, 30) nl (u "Guia") 80 24 = Ok [] <-> nl = []).
Proof.
  split; [lia|]. split; [lia|].
  apply (paginate_no_screen_iff_empty wrap_fitting (100, 30) nl (u "Guia") 80 24); lia.
Defined.

Lemma paginate_loop_some_screen (fuel : nat) (title : str) (lines : list str)
      (rows total idx : Z) (screens : list screen) :
  idx < total ->
  paginate_loop fuel title lines rows total idx = Ok screens ->
  screens <> [].
Proof.
  intros Hlt. destruct fuel as [|fuel]; cbn [paginate_loop];
    destruct (Z.ltb_spec idx total); try lia; [discriminate|].
  destruct (for_each _ _ _) as [printed| |]; cbn [bind]; try discriminate.
  destruct (paginate_loop fuel _ _ _ _ _) as [rest| |]; cbn [bind];
    try discriminate.
  intros Heq. inversion Heq. discriminate.
Qed.

(** The loop asks for Enter after a screen exactly when another screen
    follows, and heads every screen alike. *)
Lemma paginate_loop_waits (title : str) (lines : list str) (rows total : Z) :
  forall fuel idx screens,
  paginate_loop fuel title lines rows total idx = Ok screens ->
  waits_but_last screens
  /\ Forall (fun s => heading s = title_heading title) screens.
Proof.
  induction fuel as [|fuel IH]; intros idx screens; cbn [paginate_loop];
    destruct (Z.ltb_spec idx total) as [Hlt|Hge]; try discriminate;
    try (intros H; inversion H; split; [exact I | constructor]).
  destruct (for_each _ _ _) as [printed| |]; cbn [bind]; try discriminate.
  destruct (paginate_loop fuel title lines rows total
              (Z.min (idx + rows) total)) as [rest| |] eqn:Erest;
    cbn [bind]; try discriminate.
  intros H. inversion H; subst screens. clear H.
  destruct (IH _ _ Erest) as [Hw Hh]. split.
  - destruct (Z.ltb_spec (Z.min (idx + rows) total) total) as [Hmore|Hlast].
    + pose proof (paginate_loop_some_screen _ _ _ _ _ _ _ Hmore Erest) as Hne.
      destruct rest as [|s rest]; [contradiction|].
      cbn [waits_but_last waits]. split; [reflexivity | exact Hw].
    + rewrite paginate_loop_done in Erest by exact Hlast.
      inversion Erest; subst rest. reflexivity.
  - constructor; [reflexivity | exact Hh].
Qed.



(** Twelve lines without a title on a height of 10: the first screen
    waits, the second does not. *)
Example paginate_waits_twelve_lines :
  paginate wrap_fitting (100, 30) twelve_lines [] 80 5
  = Ok [Screen None (map (fun c => [c]) (list_ascii_of_string "abcdefghij")) true;
        Screen None [u "k"; u "l"] false].
Proof. vm_compute. reflexivity. Qed.

(** ** The number of pages *)

Lemma chunks_upto_length {A : Type} (n : nat) :
  (0 < n)%nat ->
  forall fuel (l : list A), (length l <= fuel)%nat ->
  length (chunks_upto fuel n l) = ((length l + n - 1) / n)%nat.
Proof.
  intros Hn. induction fuel as [|fuel IH]; intros l Hl.
  - destruct l; [|cbn [length] in Hl; lia].
    cbn [chunks_upto length]. symmetry. apply Nat.div_small. lia.
  - destruct l as [|x l].
    { cbn [chunks_upto length]. symmetry. apply Nat.div_small. lia. }
    cbn [chunks_upto]. cbn [length] in *. rewrite IH.
    2:{ rewrite length_skipn. cbn [length]. lia. }
    rewrite length_skipn. cbn [length].
    destruct (Nat.le_gt_cases (S (length l)) n) as [Hle|Hgt].
    + replace (S (length l) - n)%nat with 0%nat by lia.
      rewrite (Nat.div_small (0 + n - 1) n) by lia.
      apply Nat.div_unique with (r := length l); lia.
    + replace (S (length l) + n - 1)%nat
        with ((S (length l) - n + n - 1) + 1 * n)%nat by lia.
      rewrite Nat.div_add by lia. lia.
Qed.

(** The pages are as many as the wrapped lines need at the body height:
    their number over [max(10, rows - 3)], rounded up. *)
Theorem paginate_page_count (wrap : str -> Z -> list str) (terminal : Z * Z)
        (text title : str) (cols rows : Z) :
  0 < cols -> 0 < rows ->
  exists screens,
    paginate wrap terminal text title cols rows = Ok screens
    /\ len screens
       = (len (wrapped_lines wrap cols text) + Z.max 10 (rows - 3) - 1)
         / Z.max 10 (rows - 3).
Proof.
  intros Hc Hr.
  destruct (paginate_pages wrap terminal text title cols rows Hc Hr)
    as (screens & Hp & Hbody & _).
  exists screens. split; [exact Hp|].
  assert (Hlen : length screens = length (map body screens))
    by now rewrite length_map.
  unfold len. rewrite Hlen, Hbody. unfold chunks.
  rewrite chunks_upto_length by (unfold body_height; lia).
  unfold body_height. rewrite Nat2Z.inj_div.
  f_equal; lia.
Qed.

Lemma paginate_page_count_witness :
  0 < 80 /\ 0 < 5 /\
  exists screens,
    paginate wrap_fitting (100, 30) twelve_lines (u "Guia") 80 5 = Ok screens
    /\ len screens
       = (len (wrapped_lines wrap_fitting 80 twelve_lines) + Z.max 10 (5 - 3) - 1)
         / Z.max 10 (5 - 3).
Proof.
  split; [lia|]. split; [lia|].
  apply (paginate_page_count wrap_fitting (100, 30) twelve_lines (u "Guia") 80 5); lia.
Defined.

(** ** More on highlighting *)

Lemma without_brackets_app (a b : str) :
  without_brackets (a ++ b) = without_brackets a ++ without_brackets b.
Proof. apply filter_app. Qed.

Lemma without_brackets_bracket (m : str) :
  without_brackets (bracket m) = without_brackets m.
Proof.
  unfold bracket. rewrite !without_brackets_app.
  cbn. now rewrite app_nil_r.
Qed.

Lemma without_brackets_sub (query : str) :
  query <> [] ->
  forall n s, (length s <= n)%nat ->
  without_brackets (PyRe.sub_literal_ci query bracket s) = without_brackets s.
Proof.
  intros Hq. induction n as [|n IH]; intros s Hn.
  - destruct s; [|cbn [length] in Hn; lia].
    destruct query; [contradiction | reflexivity].
  - destruct s as [|c s].
    { destruct query; [contradiction | reflexivity]. }
    destruct (PyRe.match_literal_ci query (c :: s)) as [m|] eqn:Em.
    + destruct (match_literal_ci_Some _ _ _ Em) as (Hm & Hlen).
      rewrite (sub_literal_ci_match query bracket (c :: s) m Hq Em).
      rewrite without_brackets_app, without_brackets_bracket, IH.
      * rewrite Hm, <- without_brackets_app. now rewrite firstn_skipn.
      * rewrite length_skipn. destruct query; [contradiction|].
        cbn [length] in *. lia.
    + rewrite (sub_literal_ci_no_match query bracket c s Em).
      unfold without_brackets in *. cbn [filter].
      rewrite IH by (cbn [length] in Hn; lia). reflexivity.
Qed.

Lemma without_brackets_interleaved (text : str) :
  without_brackets (flat_map (fun c => bracket [] ++ [c]) text)
  = without_brackets text.
Proof.
  induction text as [|c text IH]; [reflexivity|].
  cbn [flat_map]. rewrite !without_brackets_app, without_brackets_bracket, IH.
  change (c :: text) with ([c] ++ text).
  now rewrite without_brackets_app.
Qed.

(** Highlighting adds brackets and changes nothing else: without its
    brackets the highlighted text is the text without its brackets, for
    every query, the empty one too. *)
Theorem highlight_only_adds_brackets (query text : str) :
  without_brackets (PyRe.sub_literal_ci query bracket text)
  = without_brackets text.
Proof.
  destruct query as [|p q].
  - rewrite sub_literal_ci_empty, without_brackets_app.
    rewrite without_brackets_interleaved, without_brackets_bracket.
    apply app_nil_r.
  - apply (without_brackets_sub (p :: q) ltac:(discriminate) (length text)). lia.
Qed.

(** ** Searching two sequences of documents *)

(** The search of no document returns no match; the search of two
    sequences of documents put end to end is the search of the first, then
    that of the second, its matches behind those of the first; and it
    fails when either fails. *)
Theorem search_all_app (fs : filesystem) (ps1 ps2 : list str) (query : str)
        (context : Z) :
  search_all fs [] query context = Ok []
  /\ search_all fs (ps1 ++ ps2) query context
     = (r1 <- search_all fs ps1 query context ;;
        r2 <- search_all fs ps2 query context ;;
        Ok (r1 ++ r2)).
Proof.
  split; [reflexivity|].
  rewrite !search_all_outcome, forallb_app, flat_map_app.
  destruct (forallb _ ps1); cbn [andb bind]; [|reflexivity].
  destruct (forallb _ ps2); reflexivity.
Qed.

(** ** The size of the context window *)

Lemma slice_length_in_range {A : Type} (l : list A) (a b : Z) :
  0 <= a <= b -> b <= len l -> len (slice l a b) = b - a.
Proof.
  unfold slice, slice_bound, len. intros Ha Hb.
  destruct (Z.ltb_spec a 0); [lia|]. destruct (Z.ltb_spec b 0); [lia|].
  rewrite length_firstn, length_skipn. lia.
Qed.

Lemma snippet_window_size (lines : list str) (i context : Z) :
  0 <= context -> 1 <= i <= len lines ->
  let window := slice lines (Z.max 1 (i - context) - 1)
                            (Z.min (len lines) (i + context)) in
  len window = Z.min (len lines) (i + context) - Z.max 1 (i - context) + 1
  /\ 1 <= len window <= 2 * context + 1
  /\ (context < i -> i + context <= len lines -> len window = 2 * context + 1).
Proof.
  intros Hc Hi. cbv zeta. rewrite slice_length_in_range by lia. lia.
Qed.

Lemma document_lines_break_free (fs : filesystem) (p : str) :
  Forall break_free (document_lines fs p).
Proof.
  unfold document_lines. destruct (fs p); [apply splitlines_break_free|constructor].
Qed.

(** The lines a snippet is made of.  With a context [c >= 0] and documents
    that can be read, the search returns, for each matching line [i] of
    each document in turn, the highlighted join of a window of lines of
    that document: the slice the code takes, which is the lines numbered
    [max(1, i - c)] to [min(N, i + c)] of the [N] lines of the document.
    The lines of the window are lines of the document, none holds a line
    boundary, and the matched line is one of them; there are
    [min(N, i + c) - max(1, i - c) + 1] of them, at least one and never more
    than [2 c + 1], and exactly [2 c + 1] when the window is not clipped by
    either end of the document. *)
Theorem search_all_window_size (fs : filesystem) (md_paths : list str)
        (query : str) (context : Z) :
  0 <= context ->
  Forall (readable fs) md_paths ->
  exists results,
    search_all fs md_paths query context = Ok results
    /\ results
       = flat_map
           (fun p =>
              map (fun i =>
                     (p, i,
                      PyRe.sub_literal_ci query bracket
                        (join nl (context_window (document_lines fs p) i context))))
                  (matching_line_numbers query (document_lines fs p)))
           md_paths
    /\ (forall p i,
          In i (matching_line_numbers query (document_lines fs p)) ->
          let lines := document_lines fs p in
          let N := len lines in
          let window := context_window lines i context in
          window = slice lines (Z.max 1 (i - context) - 1) (Z.min N (i + context))
          /\ (forall line, In line window -> In line lines)
          /\ Forall break_free window
          /\ (exists line, line_at lines i = Some line /\ In line window)
          /\ len window = Z.min N (i + context) - Z.max 1 (i - context) + 1
          /\ 1 <= len window <= 2 * context + 1
          /\ (context < i -> i + context <= N -> len window = 2 * context + 1)).
Proof.
  intros Hc Hread. eexists.
  split; [apply (search_all_windows _ _ _ _ Hc Hread)|].
  split; [reflexivity|].
  intros p i Hi. cbv zeta.
  apply matching_line_numbers_In in Hi as (line & Hi & Hline & _).
  assert (Hw : context_window (document_lines fs p) i context
               = slice (document_lines fs p) (Z.max 1 (i - context) - 1)
                       (Z.min (len (document_lines fs p)) (i + context))).
  { unfold context_window. now rewrite slice_lines_between by lia. }
  assert (Hincl : forall l, In l (context_window (document_lines fs p) i context) ->
                            In l (document_lines fs p)).
  { intros l. unfold context_window. apply lines_between_incl. }
  split; [exact Hw|]. split; [exact Hincl|]. split.
  { apply Forall_forall. intros l Hl.
    pose proof (document_lines_break_free fs p) as Hbf.
    rewrite Forall_forall in Hbf. apply Hbf, Hincl, Hl. }
  split.
  { exists line. split; [exact Hline|].
    unfold context_window. apply (lines_between_In _ _ _ i); [lia | exact Hline]. }
  rewrite Hw.
  exact (snippet_window_size (document_lines fs p) i context Hc Hi).
Qed.

Lemma search_all_window_size_witness :
  0 <= 1 /\
  Forall (readable sample_fs) [u "guia.md"; u "notas.md"] /\
  context_window (document_lines sample_fs (u "guia.md")) 3 1
  = [u "on the mat"; u "concat cAt"] /\
  exists results,
    search_all sample_fs [u "guia.md"; u "notas.md"] (u "cat") 1 = Ok results
    /\ results
       = flat_map
           (fun p =>
              map (fun i =>
                     (p, i,
                      PyRe.sub_literal_ci (u "cat") bracket
                        (join nl (context_window (document_lines sample_fs p) i 1))))
                  (matching_line_numbers (u "cat") (document_lines sample_fs p)))
           [u "guia.md"; u "notas.md"]
    /\ (forall p i,
          In i (matching_line_numbers (u "cat") (document_lines sample_fs p)) ->
          let lines := document_lines sample_fs p in
          let N := len lines in
          let window := context_window lines i 1 in
          window = slice lines (Z.max 1 (i - 1) - 1) (Z.min N (i + 1))
          /\ (forall line, In line window -> In line lines)
          /\ Forall break_free window
          /\ (exists line, line_at lines i = Some line /\ In line window)
          /\ len window = Z.min N (i + 1) - Z.max 1 (i - 1) + 1
          /\ 1 <= len window <= 2 * 1 + 1
          /\ (1 < i -> i + 1 <= N -> len window = 2 * 1 + 1)).
Proof.
  split; [lia|]. split; [exact sample_fs_readable|].
  split; [vm_compute; reflexivity|].
  apply (search_all_window_size sample_fs [u "guia.md"; u "notas.md"] (u "cat") 1);
    [lia | exact sample_fs_readable].
Defined.

(** ** More on the inventory: the order of the listing *)

Lemma code_injective (x y : ascii) : code x = code y -> x = y.
Proof.
  unfold code. intros H. apply N2Z.inj in H.
  rewrite <- (ascii_N_embedding x), <- (ascii_N_embedding y). now rewrite H.
Qed.

Lemma str_leb_antisym (a b : str) :
  str_leb a b = true -> str_leb b a = true -> a = b.
Proof.
  revert b; induction a as [|x a IH]; intros [|y b]; simpl; try congruence.
  destruct (Z.ltb_spec (code x) (code y)) as [H1|H1],
           (Z.ltb_spec (code y) (code x)) as [H2|H2];
    try congruence; try lia.
  intros Hab Hba. assert (Hxy : x = y) by (apply code_injective; lia).
  subst y. f_equal. now apply IH.
Qed.

Lemma insert_sorted_perm (x : str) (l : list str) :
  Permutation (x :: l) (insert_sorted x l).
Proof.
  induction l as [|y l IH]; simpl; [reflexivity|].
  destruct (str_leb x y); [reflexivity|].
  rewrite perm_swap. now constructor.
Qed.

Lemma sorted_perm (l : list str) : Permutation l (sorted l).
Proof.
  induction l as [|x l IH]; simpl; [constructor|].
  rewrite <- insert_sorted_perm. now constructor.
Qed.

(** Two sorted lists of the same names are the same list. *)
Lemma sorted_unique (l1 : list str) :
  forall l2,
  StronglySorted str_le l1 -> StronglySorted str_le l2 ->
  Permutation l1 l2 -> l1 = l2.
Proof.
  induction l1 as [|x l1 IH]; intros l2 H1 H2 Hp.
  - now apply Permutation_nil in Hp.
  - destruct l2 as [|y l2].
    { symmetry in Hp. now apply Permutation_nil in Hp. }
    inversion H1 as [|? ? Hs1 Hx]; subst. inversion H2 as [|? ? Hs2 Hy]; subst.
    rewrite Forall_forall in Hx, Hy.
    assert (Hxy : x = y).
    { assert (Hyin : In y (x :: l1))
        by (apply (Permutation_in y (Permutation_sym Hp)); now left).
      assert (Hxin : In x (y :: l2))
        by (apply (Permutation_in x Hp); now left).
      destruct Hyin as [->|Hyin]; [reflexivity|].
      destruct Hxin as [->|Hxin]; [reflexivity|].
      apply str_leb_antisym; [now apply Hx | now apply Hy]. }
    subst y. f_equal. apply IH; try assumption.
    now apply Permutation_cons_inv in Hp.
Qed.

Lemma sorted_order_free (l1 l2 : list str) :
  Permutation l1 l2 -> sorted l1 = sorted l2.
Proof.
  intros Hp. apply sorted_unique; try apply sorted_sorted.
  now rewrite <- !sorted_perm.
Qed.

Lemma well_formed_perm (d d' : OsPath.directory) :
  Permutation d d' -> well_formed d -> well_formed d'.
Proof.
  intros Hp [Hsf Hnd]. unfold well_formed, OsPath.listdir in *.
  assert (Hnames : Permutation (map fst d) (map fst d')) by now apply Permutation_map.
  split.
  - rewrite Forall_forall in *. intros x Hx. apply Hsf.
    now apply (Permutation_in x (Permutation_sym Hnames)).
  - now apply (Permutation_NoDup Hnames).
Qed.

(** [list_files] does not depend on the order in which [os.listdir] gives
    the names: two listings of the same entries give the same two lists. *)
Theorem list_files_listing_order (root : str) (d d' : OsPath.directory) :
  well_formed d -> Permutation d d' ->
  list_files root d = list_files root d'.
Proof.
  intros Hwf Hp. pose proof (well_formed_perm d d' Hp Hwf) as Hwf'.
  rewrite !list_files_filter.
  assert (Hnames : sorted (OsPath.listdir d) = sorted (OsPath.listdir d')).
  { apply sorted_order_free. unfold OsPath.listdir. now apply Permutation_map. }
  rewrite <- Hnames.
  assert (Hfile : forall name, In name (sorted (OsPath.listdir d)) ->
            OsPath.isfile root d (OsPath.join root name)
            = OsPath.isfile root d' (OsPath.join root name)).
  { intros name Hin. apply -> sorted_In in Hin.
    apply listdir_In in Hin as [n Hn].
    rewrite (isfile_entry root d name n Hwf Hn).
    symmetry. apply (isfile_entry root d' name n Hwf').
    now apply (Permutation_in _ Hp). }
  f_equal; f_equal; apply filter_ext_in; intros name Hin;
    unfold is_markdown, is_image; now rewrite (Hfile name Hin).
Qed.

Lemma list_files_listing_order_witness :
  well_formed sample_dir /\ Permutation sample_dir (rev sample_dir) /\
  list_files (u "docs") sample_dir = list_files (u "docs") (rev sample_dir).
Proof.
  split; [exact sample_dir_well_formed|].
  split; [apply Permutation_rev|].
  apply (list_files_listing_order (u "docs") sample_dir (rev sample_dir));
    [exact sample_dir_well_formed | apply Permutation_rev].
Defined.

(** ** More on the inventory: no file twice *)

Lemma filter_disjoint_length {A : Type} (f g : A -> bool) (l : list A) :
  (forall x, f x = true -> g x = false) ->
  (length (filter f l) + length (filter g l) <= length l)%nat.
Proof.
  intros H. induction l as [|x l IH]; simpl; [lia|].
  destruct (f x) eqn:Ef.
  - rewrite (H x Ef). simpl. lia.
  - destruct (g x); simpl; lia.
Qed.

Lemma listed_NoDup (root : str) (f : str -> bool) (names : list str) :
  Forall slash_free names -> NoDup names ->
  NoDup (map (OsPath.join root) (filter f (sorted names))).
Proof.
  intros Hsf Hnd. apply NoDup_map_NoDup_ForallPairs.
  - intros a b Ha Hb Heq.
    apply filter_In in Ha as [Ha _]. apply filter_In in Hb as [Hb _].
    apply -> sorted_In in Ha. apply -> sorted_In in Hb.
    rewrite Forall_forall in Hsf.
    apply (join_injective root); auto.
  - apply NoDup_filter. apply (Permutation_NoDup (sorted_perm names) Hnd).
Qed.

(** No path is listed twice, and the two lists together are no longer
    than the directory. *)
Theorem list_files_no_duplicate (root : str) (d : OsPath.directory)
        (mds imgs : list str) :
  well_formed d ->
  list_files root d = (mds, imgs) ->
  NoDup mds /\ NoDup imgs /\ len mds + len imgs <= len d.
Proof.
  intros [Hsf Hnd] Hlist. rewrite list_files_filter in Hlist.
  inversion Hlist; subst mds imgs. clear Hlist.
  split; [now apply listed_NoDup|]. split; [now apply listed_NoDup|].
  unfold len. rewrite !length_map.
  pose proof (filter_disjoint_length (is_markdown root d) (is_image root d)
                (sorted (OsPath.listdir d))) as Hle.
  assert (Hlen : length (sorted (OsPath.listdir d)) = length d).
  { rewrite <- (Permutation_length (sorted_perm (OsPath.listdir d))).
    unfold OsPath.listdir. apply length_map. }
  rewrite Hlen in Hle.
  assert (Hdis : forall x, is_markdown root d x = true -> is_image root d x = false).
  { intros x. unfold is_markdown, is_image. rewrite andb_true_iff.
    intros [_ Hmd]. rewrite Hmd. cbn [negb]. now rewrite andb_false_r. }
  specialize (Hle Hdis). lia.
Qed.

Lemma list_files_no_duplicate_witness :
  well_formed sample_dir /\
  list_files (u "docs") sample_dir
  = ([u "docs/apuntes.markdown"; u "docs/enlace.md"; u "docs/indice.MD"],
     [u "docs/Logo.png"]) /\
  NoDup [u "docs/apuntes.markdown"; u "docs/enlace.md"; u "docs/indice.MD"]
  /\ NoDup [u "docs/Logo.png"]
  /\ len [u "docs/apuntes.markdown"; u "docs/enlace.md"; u "docs/indice.MD"]
     + len [u "docs/Logo.png"] <= len sample_dir.
Proof.
  split; [exact sample_dir_well_formed|]. split; [reflexivity|].
  apply (list_files_no_duplicate (u "docs") sample_dir);
    [exact sample_dir_well_formed | reflexivity].
Defined.

(** ** More on the inventory: names that start with a dot *)

Lemma rfind_from_all (c : ascii) (s : str) :
  forallb (fun x => char_eqb x c) s = true ->
  forall i best,
  rfind_from c s i best = match s with [] => best | _ => i + len s - 1 end.
Proof.
  unfold len. induction s as [|x s IH]; intros H i best; [reflexivity|].
  cbn [forallb] in H. apply andb_true_iff in H as [Hx Hs].
  cbn [rfind_from]. rewrite Hx, (IH Hs).
  destruct s; cbn [length]; lia.
Qed.

Lemma takewhile_forallb {A : Type} (f : A -> bool) (l : list A) :
  forallb f (takewhile f l) = true.
Proof.
  induction l as [|x l IH]; simpl; [reflexivity|].
  destruct (f x) eqn:E; simpl; [now rewrite E | reflexivity].
Qed.

Lemma forallb_firstn {A : Type} (f : A -> bool) (n : nat) (l : list A) :
  forallb f l = true -> forallb f (firstn n l) = true.
Proof.
  revert l; induction n as [|n IH]; intros [|x l] H; simpl in *; auto.
  apply andb_true_iff in H as [Hx Hl]. now rewrite Hx, IH.
Qed.

Lemma slice_prefix {A : Type} (l : list A) (b : Z) :
  0 <= b <= len l -> slice l 0 b = firstn (Z.to_nat b) l.
Proof.
  intros Hb. unfold slice, slice_bound. cbn [Z.ltb Z.compare].
  destruct (Z.ltb_spec b 0); [lia|].
  replace (Z.min 0 (len l)) with 0 by (unfold len in *; lia).
  replace (Z.min b (len l)) with b by lia.
  now rewrite Z.sub_0_r.
Qed.

(** A name whose dots all lead has no extension. *)
Lemma splitext_dots_lead (name : str) :
  slash_free name -> dots_lead name -> OsPath.splitext name = (name, []).
Proof.
  intros Hsf Hdl. unfold dots_lead in Hdl.
  pose proof (takewhile_forallb is_dot name) as Hdots.
  pose proof (takewhile_dropwhile is_dot name) as Hname.
  remember (takewhile is_dot name) as dots eqn:E1.
  remember (dropwhile is_dot name) as rest eqn:E2.
  clear E1 E2. subst name.
  unfold OsPath.splitext.
  assert (Hsep : rfind OsPath.sep (dots ++ rest) = -1)
    by (unfold rfind; now apply rfind_from_absent).
  assert (Hdot : rfind OsPath.extsep (dots ++ rest)
                 = match dots with [] => -1 | _ => len dots - 1 end).
  { unfold rfind. rewrite rfind_from_app.
    rewrite rfind_from_absent by exact Hdl.
    rewrite (rfind_from_all OsPath.extsep dots Hdots).
    destruct dots; [reflexivity | lia]. }
  rewrite Hsep, Hdot. destruct dots as [|c dots']; [reflexivity|].
  replace (existsb (fun c0 => negb (char_eqb c0 OsPath.extsep))
                   (slice ((c :: dots') ++ rest) (-1 + 1) (len (c :: dots') - 1)))
    with false.
  { now rewrite andb_false_r. }
  symmetry. apply not_true_iff_false. intros Hex.
  apply existsb_exists in Hex as (x & Hin & Hx).
  change (-1 + 1) with 0 in Hin.
  rewrite slice_prefix in Hin
    by (unfold len; rewrite length_app; cbn [length]; lia).
  rewrite firstn_app in Hin.
  match type of Hin with
  | In x (firstn ?n _ ++ firstn ?m rest) =>
      replace m with 0%nat in Hin by (unfold len; lia);
      pose proof (forallb_firstn is_dot n (c :: dots') Hdots) as Hall
  end.
  cbn [firstn] in Hin. rewrite app_nil_r in Hin.
  rewrite forallb_forall in Hall. specialize (Hall x Hin).
  unfold is_dot in Hall. rewrite Hall in Hx. discriminate.
Qed.

(** A file whose name has its dots all at the start, such as ".md" or
    "..png", has no extension for [os.path.splitext] and is in neither
    list, whatever stands behind the dots. *)
Theorem list_files_skips_dot_names (root : str) (d : OsPath.directory)
        (mds imgs : list str) (name : str) :
  well_formed d ->
  list_files root d = (mds, imgs) ->
  In name (OsPath.listdir d) ->
  dots_lead name ->
  ~ In (OsPath.join root name) mds /\ ~ In (OsPath.join root name) imgs.
Proof.
  intros [Hsf Hnd] Hlist Hname Hdl. rewrite list_files_filter in Hlist.
  inversion Hlist; subst mds imgs. clear Hlist.
  assert (Hslash : slash_free name)
    by (rewrite Forall_forall in Hsf; now apply Hsf).
  rewrite !(listed_name_In root _ _ name Hsf Hname).
  unfold is_markdown, is_image, lowered_ext.
  rewrite (splitext_dots_lead name Hslash Hdl). cbn [snd lower map].
  change (mem [] MD_EXT) with false. change (mem [] IMG_EXT) with false.
  rewrite !andb_false_r. split; discriminate.
Qed.

Lemma hidden_dir_well_formed : well_formed hidden_dir.
Proof.
  split.
  - repeat constructor.
  - unfold hidden_dir, OsPath.listdir. cbn [map fst].
    repeat constructor; cbn [In]; intros H;
      repeat (destruct H as [H|H]; [discriminate H|]); exact H.
Qed.

Lemma list_files_skips_dot_names_witness :
  well_formed hidden_dir /\
  list_files (u "docs") hidden_dir = ([u "docs/.notas.md"], []) /\
  In (u ".md") (OsPath.listdir hidden_dir) /\
  dots_lead (u ".md") /\
  ~ In (OsPath.join (u "docs") (u ".md")) [u "docs/.notas.md"]
  /\ ~ In (OsPath.join (u "docs") (u ".md")) [].
Proof.
  split; [exact hidden_dir_well_formed|]. split; [reflexivity|].
  split; [cbn; tauto|]. split; [reflexivity|].
  apply (list_files_skips_dot_names (u "docs") hidden_dir);
    [exact hidden_dir_well_formed | reflexivity | cbn; tauto | reflexivity].
Defined.

(** ** Asking for a number *)

Lemma existsb_eqb_In (n : Z) (valid : list Z) :
  existsb (Z.eqb n) valid = true <-> In n valid.
Proof.
  rewrite existsb_exists. split.
  - intros (x & Hin & Hx). apply Z.eqb_eq in Hx. now subst.
  - intros H. exists n. split; [exact H | apply Z.eqb_refl].
Qed.

Lemma decimal_value_nonneg (s : str) :
  forallb isdecimal_char s = true ->
  forall acc, 0 <= acc ->
  0 <= fold_left (fun n c => 10 * n + (code c - 48)) s acc.
Proof.
  induction s as [|c s IH]; intros H acc Hacc; [exact Hacc|].
  cbn [forallb] in H. apply andb_true_iff in H as [Hc Hs].
  cbn [fold_left]. apply IH; [exact Hs|].
  unfold isdecimal_char in Hc. apply andb_true_iff in Hc as [Hlo _].
  apply Z.leb_le in Hlo. lia.
Qed.

Lemma int_of_digits_nonneg (limit : Z) (s : str) (n : Z) :
  int_of_digits limit s = Some n -> 0 <= n.
Proof.
  unfold int_of_digits.
  destruct (forallb isdecimal_char s) eqn:E; [|discriminate]. cbn [andb].
  destruct (negb _); [|discriminate].
  intros H. inversion H. apply decimal_value_nonneg; [exact E | lia].
Qed.

Lemma line_answer_valid (limit : Z) (valid : list Z) (line : str) (n : Z) :
  line_answer limit valid line = Some n ->
  In n valid /\ 0 <= n /\ int_of_digits limit (strip line) = Some n.
Proof.
  unfold line_answer. destruct (isdigit (strip line)); [|discriminate].
  destruct (int_of_digits limit (strip line)) as [m|] eqn:E; [|discriminate].
  destruct (existsb (Z.eqb m) valid) eqn:Ev; [|discriminate].
  intros H. inversion H; subst m.
  split; [now apply existsb_eqb_In|].
  split; [now apply (int_of_digits_nonneg limit (strip line)) | reflexivity].
Qed.

(** One turn of the loop on a line passed over. *)
Lemma ask_int_loop_passed (limit : Z) (prompt : str) (valid : list Z)
      (line : str) (typed : list str) (shown : list event) :
  line_passed limit valid line = true ->
  ask_int_loop limit prompt valid (line :: typed) shown
  = ask_int_loop limit prompt valid typed
      (shown ++ [Asked prompt; Printed (invalid_option_message valid)]).
Proof.
  unfold line_passed, line_answer, line_refused. cbn [ask_int_loop].
  destruct (isdigit (strip line)); cbn [andb].
  - destruct (int_of_digits limit (strip line)) as [n|]; [|discriminate].
    destruct (existsb (Z.eqb n) valid); [discriminate|].
    intros _. now rewrite <- app_assoc.
  - intros _. now rewrite <- app_assoc.
Qed.

Lemma ask_int_loop_turns (limit : Z) (prompt : str) (valid : list Z)
      (passed : list str) :
  forallb (line_passed limit valid) passed = true ->
  forall typed shown,
  ask_int_loop limit prompt valid (passed ++ typed) shown
  = ask_int_loop limit prompt valid typed (shown ++ turns prompt valid passed).
Proof.
  induction passed as [|line passed IH]; intros H typed shown.
  - cbn [app turns flat_map]. now rewrite app_nil_r.
  - cbn [forallb] in H. apply andb_true_iff in H as [Hl Hp].
    cbn [app]. rewrite (ask_int_loop_passed limit prompt valid line _ _ Hl).
    rewrite (IH Hp). unfold turns. cbn [flat_map]. now rewrite <- app_assoc.
Qed.

(** [ask_int] returns the value of the first line typed that is a valid
    option, provided every line typed before it is one that [ask_int]
    passes over: a line that, trimmed, is not all digits, or whose number
    is not a valid option.  (A line of digits that [int] refuses is not
    passed over: it ends [ask_int] with [ValueError].)  For each line
    passed over [ask_int] shows the prompt and its message; the lines typed
    behind the answer are left to be read. *)
Theorem ask_int_answers (limit : Z) (prompt : str) (valid : list Z)
        (c : console) (passed : list str) (line : str) (rest : list str)
        (n : Z) :
  typed c = passed ++ line :: rest ->
  forallb (line_passed limit valid) passed = true ->
  line_answer limit valid line = Some n ->
  ask_int limit prompt valid c
  = (Answered n,
     Console rest (shown c ++ turns prompt valid passed ++ [Asked prompt])).
Proof.
  intros Ht Hp Ha. unfold ask_int. rewrite Ht, (ask_int_loop_turns _ _ _ _ Hp).
  cbn [ask_int_loop]. unfold line_answer in Ha.
  destruct (isdigit (strip line)); [|discriminate].
  destruct (int_of_digits limit (strip line)) as [m|]; [|discriminate].
  destruct (existsb (Z.eqb m) valid); [|discriminate].
  inversion Ha; subst m. now rewrite <- app_assoc.
Qed.

Lemma ask_int_answers_witness :
  typed menu_console = [u "tres"; u "9"] ++ u " 3 " :: [u "0"] /\
  forallb (line_passed 4300 menu_options) [u "tres"; u "9"] = true /\
  line_answer 4300 menu_options (u " 3 ") = Some 3 /\
  ask_int 4300 (u "> ") menu_options menu_console
  = (Answered 3,
     Console [u "0"]
       (shown menu_console ++ turns (u "> ") menu_options [u "tres"; u "9"]
        ++ [Asked (u "> ")])).
Proof.
  split; [reflexivity|]. split; [reflexivity|]. split; [reflexivity|].
  apply (ask_int_answers 4300 (u "> ") menu_options menu_console
           [u "tres"; u "9"] (u " 3 ") [u "0"] 3); reflexivity.
Defined.

(** When no line typed is a valid option, and none makes [int] fail,
    [ask_int] reads them all, answers each with its message, and ends in
    [EOFError] on the prompt that follows the last. *)
Theorem ask_int_end_of_input (limit : Z) (prompt : str) (valid : list Z)
        (c : console) :
  forallb (line_passed limit valid) (typed c) = true ->
  ask_int limit prompt valid c
  = (Failed EOFError,
     Console [] (shown c ++ turns prompt valid (typed c) ++ [Asked prompt])).
Proof.
  intros Hp. unfold ask_int.
  rewrite <- (app_nil_r (typed c)) at 1.
  rewrite (ask_int_loop_turns _ _ _ _ Hp). cbn [ask_int_loop].
  now rewrite <- app_assoc.
Qed.

Lemma ask_int_end_of_input_witness :
  forallb (line_passed 4300 menu_options) (typed (Console [u "tres"; u "9"] [])) = true /\
  ask_int 4300 (u "> ") menu_options (Console [u "tres"; u "9"] [])
  = (Failed EOFError,
     Console [] (shown (Console [u "tres"; u "9"] [])
                 ++ turns (u "> ") menu_options (typed (Console [u "tres"; u "9"] []))
                 ++ [Asked (u "> ")])).
Proof.
  split; [reflexivity|].
  apply (ask_int_end_of_input 4300 (u "> ") menu_options (Console [u "tres"; u "9"] [])).
  reflexivity.
Defined.

Lemma int_of_digits_not_decimal (limit : Z) (s : str) :
  existsb (fun c => negb (isdecimal_char c)) s = true ->
  int_of_digits limit s = None.
Proof.
  intros H. unfold int_of_digits.
  replace (forallb isdecimal_char s) with false; [reflexivity|].
  symmetry. apply not_true_iff_false. intros Hall.
  apply existsb_exists in H as (x & Hin & Hx).
  rewrite forallb_forall in Hall. rewrite (Hall x Hin) in Hx. discriminate.
Qed.

(** A line of digits that are not all decimal digits, a superscript two
    among them for one, gets through [isdigit] and makes [int] raise:
    [ask_int] does not ask again, it ends in [ValueError], whatever the
    valid options. *)
Theorem ask_int_value_error (limit : Z) (prompt : str) (valid : list Z)
        (c : console) (passed : list str) (line : str) (rest : list str) :
  typed c = passed ++ line :: rest ->
  forallb (line_passed limit valid) passed = true ->
  isdigit (strip line) = true ->
  existsb (fun ch => negb (isdecimal_char ch)) (strip line) = true ->
  ask_int limit prompt valid c
  = (Failed ValueError,
     Console rest (shown c ++ turns prompt valid passed ++ [Asked prompt])).
Proof.
  intros Ht Hp Hd Hn. unfold ask_int. rewrite Ht, (ask_int_loop_turns _ _ _ _ Hp).
  cbn [ask_int_loop]. rewrite Hd, (int_of_digits_not_decimal limit _ Hn).
  now rewrite <- app_assoc.
Qed.

Lemma ask_int_value_error_witness :
  typed (Console [u "x"; ["178"%char]; u "2"] []) = [u "x"] ++ ["178"%char] :: [u "2"] /\
  forallb (line_passed 4300 menu_options) [u "x"] = true /\
  isdigit (strip ["178"%char]) = true /\
  existsb (fun ch => negb (isdecimal_char ch)) (strip ["178"%char]) = true /\
  ask_int 4300 (u "> ") menu_options (Console [u "x"; ["178"%char]; u "2"] [])
  = (Failed ValueError,
     Console [u "2"]
       (shown (Console [u "x"; ["178"%char]; u "2"] [])
        ++ turns (u "> ") menu_options [u "x"] ++ [Asked (u "> ")])).
Proof.
  split; [reflexivity|]. split; [reflexivity|]. split; [reflexivity|].
  split; [reflexivity|].
  apply (ask_int_value_error 4300 (u "> ") menu_options
           (Console [u "x"; ["178"%char]; u "2"] []) [u "x"] ["178"%char] [u "2"]);
    reflexivity.
Defined.

Lemma ask_int_loop_sound (limit : Z) (prompt : str) (valid : list Z) :
  forall typed0 shown0 n c',
  ask_int_loop limit prompt valid typed0 shown0 = (Answered n, c') ->
  exists passed line,
    typed0 = passed ++ line :: typed c'
    /\ forallb (line_passed limit valid) passed = true
    /\ line_answer limit valid line = Some n.
Proof.
  induction typed0 as [|line typed0 IH]; intros shown0 n c' H.
  - discriminate.
  - destruct (line_answer limit valid line) as [m|] eqn:Ea.
    + exists [], line. cbn [app forallb].
      pose proof Ea as Ea'.
      cbn [ask_int_loop] in H. unfold line_answer in Ea.
      destruct (isdigit (strip line)); [|discriminate].
      destruct (int_of_digits limit (strip line)) as [k|]; [|discriminate].
      destruct (existsb (Z.eqb k) valid); [|discriminate].
      inversion Ea; subst k. inversion H; subst. cbn [typed].
      repeat split. exact Ea'.
    + destruct (line_refused limit line) eqn:Er.
      * exfalso. cbn [ask_int_loop] in H. unfold line_refused in Er.
        destruct (isdigit (strip line)); [|discriminate].
        destruct (int_of_digits limit (strip line)); discriminate.
      * assert (Hl : line_passed limit valid line = true)
          by (unfold line_passed; now rewrite Ea, Er).
        rewrite (ask_int_loop_passed limit prompt valid line _ _ Hl) in H.
        destruct (IH _ _ _ H) as (passed & l & Ht & Hp & Hans).
        exists (line :: passed), l. cbn [app forallb].
        rewrite Hl, Hp, Ht. auto.
Qed.

Lemma ask_int_sound (limit : Z) (prompt : str) (valid : list Z)
      (c c' : console) (n : Z) :
  ask_int limit prompt valid c = (Answered n, c') ->
  In n valid /\ 0 <= n
  /\ exists passed line,
       typed c = passed ++ line :: typed c'
       /\ int_of_digits limit (strip line) = Some n.
Proof.
  unfold ask_int. intros H.
  destruct (ask_int_loop_sound _ _ _ _ _ _ _ H) as (passed & line & Ht & _ & Ha).
  destruct (line_answer_valid _ _ _ _ Ha) as (Hin & Hn & Hv).
  split; [exact Hin|]. split; [exact Hn|]. now exists passed, line.
Qed.

(** Whatever is typed, an answer of [ask_int] is one of the valid options
    and is not negative; it is the value of a line typed, and the lines left
    are those behind that line. *)
Theorem ask_int_answer_is_valid (limit : Z) (prompt : str) (valid : list Z)
        (c c' : console) (n : Z) :
  ask_int limit prompt valid c = (Answered n, c') ->
  In n valid /\ 0 <= n
  /\ exists passed line,
       typed c = passed ++ line :: typed c'
       /\ int_of_digits limit (strip line) = Some n.
Proof. exact (ask_int_sound limit prompt valid c c' n). Qed.

Lemma ask_int_answer_is_valid_witness :
  ask_int 4300 (u "> ") menu_options menu_console
  = (Answered 3,
     Console [u "0"]
       [Asked (u "> "); Printed (invalid_option_message menu_options);
        Asked (u "> "); Printed (invalid_option_message menu_options);
        Asked (u "> ")])
  /\ In 3 menu_options /\ 0 <= 3
  /\ exists passed line,
       typed menu_console
       = passed ++ line
         :: typed (Console [u "0"]
                     [Asked (u "> "); Printed (invalid_option_message menu_options);
                      Asked (u "> "); Printed (invalid_option_message menu_options);
                      Asked (u "> ")])
       /\ int_of_digits 4300 (strip line) = Some 3.
Proof.
  split; [reflexivity|].
  apply (ask_int_answer_is_valid 4300 (u "> ") menu_options menu_console).
  reflexivity.
Defined.

(** ** Picking from a list *)

(** The index [pick_from_list] returns can be used on the list: for the
    empty list it is [-1], and nothing is read; for any other list it is
    never [-1] but the index, from 0, of an item of the list. *)
Theorem pick_from_list_index (limit : Z) (items : list str) (title : str)
        (c c' : console) (i : Z) :
  pick_from_list limit items title c = (Answered i, c') ->
  (items = [] /\ i = -1 /\ typed c' = typed c)
  \/ (items <> [] /\ 0 <= i < len items
      /\ exists p, getitem items i = Ok p).
Proof.
  unfold pick_from_list. destruct items as [|p0 items].
  - intros H. inversion H; subst. left. auto.
  - set (all := p0 :: items).
    destruct (ask_int limit pick_prompt (list_range 1 (len all + 1)) _)
      as [[n|e] c1] eqn:Ea; [|discriminate].
    intros H. inversion H; subst i c1. clear H.
    apply ask_int_sound in Ea as (Hin & _ & _).
    unfold list_range in Hin. apply range_In in Hin.
    right. split; [discriminate|]. split; [lia|].
    destruct (nth_error all (Z.to_nat (n - 1))) as [p|] eqn:Ep.
    + exists p. apply getitem_nth; [lia | exact Ep].
    + apply nth_error_None in Ep. unfold len in Hin. lia.
Qed.

Lemma pick_from_list_index_witness :
  pick_from_list 4300 [u "docs/a.md"; u "docs/b.md"] (u "Elija:")
                 (Console [u "3"; u "2"; u "1"] [])
  = (Answered 1,
     Console [u "1"]
       [Printed (u "Elija:"); Printed (u "  1) a.md"); Printed (u "  2) b.md");
        Asked pick_prompt; Printed (invalid_option_message [1; 2]);
        Asked pick_prompt])
  /\ (([u "docs/a.md"; u "docs/b.md"] = [] /\ 1 = -1
       /\ typed (Console [u "1"]
                   [Printed (u "Elija:"); Printed (u "  1) a.md");
                    Printed (u "  2) b.md");
                    Asked pick_prompt; Printed (invalid_option_message [1; 2]);
                    Asked pick_prompt])
          = typed (Console [u "3"; u "2"; u "1"] []))
      \/ ([u "docs/a.md"; u "docs/b.md"] <> []
          /\ 0 <= 1 < len [u "docs/a.md"; u "docs/b.md"]
          /\ exists p, getitem [u "docs/a.md"; u "docs/b.md"] 1 = Ok p)).
Proof.
  split; [reflexivity|].
  apply (pick_from_list_index 4300 [u "docs/a.md"; u "docs/b.md"] (u "Elija:")
           (Console [u "3"; u "2"; u "1"] [])).
  reflexivity.
Defined.

(** ** Opening a document *)

(** [open_doc_paged] fails with [OSError], and shows nothing, when the
    document cannot be read; otherwise it shows the document at the size of
    the terminal: pages of [max(10, rows - 3)] wrapped lines, the lines
    wrapped to the columns of the terminal, each page under the file name
    of the document. *)
Theorem open_doc_paged_pages (wrap : str -> Z -> list str) (terminal : Z * Z)
        (fs : filesystem) (md_path : str) :
  0 < fst terminal -> 0 < snd terminal ->
  (fs md_path = None -> open_doc_paged wrap terminal fs md_path = Raise OSError)
  /\ (forall text,
        fs md_path = Some text ->
        exists screens,
          open_doc_paged wrap terminal fs md_path = Ok screens
          /\ map body screens
             = chunks (Z.to_nat (Z.max 10 (snd terminal - 3)))
                      (wrapped_lines wrap (fst terminal) text)
          /\ Forall (fun s => heading s
                              = title_heading (OsPath.basename md_path))
                    screens).
Proof.
  intros Hc Hr. unfold open_doc_paged, read_text. split.
  - intros ->. reflexivity.
  - intros text ->. cbn [bind].
    rewrite (paginate_unspecified wrap terminal text _ 0 0) by (auto; lia).
    destruct (paginate_pages wrap terminal text (OsPath.basename md_path)
                (fst terminal) (snd terminal) Hc Hr)
      as (screens & Hp & Hbody & _).
    exists screens. split; [exact Hp|]. split; [exact Hbody|].
    revert Hp. unfold paginate.
    destruct ((fst terminal <=? 0) || (snd terminal <=? 0)); destruct terminal;
      intros Hp; now apply paginate_loop_waits in Hp.
Qed.

Lemma open_doc_paged_pages_witness :
  0 < fst (100, 30) /\ 0 < snd (100, 30) /\
  (sample_fs (u "guia.md") = None ->
   open_doc_paged wrap_fitting (100, 30) sample_fs (u "guia.md") = Raise OSError)
  /\ (forall text,
        sample_fs (u "guia.md") = Some text ->
        exists screens,
          open_doc_paged wrap_fitting (100, 30) sample_fs (u "guia.md") = Ok screens
          /\ map body screens
             = chunks (Z.to_nat (Z.max 10 (snd (100, 30) - 3)))
                      (wrapped_lines wrap_fitting (fst (100, 30)) text)
          /\ Forall (fun s => heading s
                              = title_heading (OsPath.basename (u "guia.md")))
                    screens).
Proof.
  split; [cbn; lia|]. split; [cbn; lia|].
  apply (open_doc_paged_pages wrap_fitting (100, 30) sample_fs (u "guia.md"));
    cbn; lia.
Defined.

(** A document of the sample files, opened: one page under its name. *)
Example open_doc_paged_sample :
  open_doc_paged wrap_fitting (100, 30) sample_fs (u "guia.md")
  = Ok [Screen (Some (u "guia.md" ++ nl ++ u "---------"))
               [u "The Cat sat"; u "on the mat"; u "concat cAt"] false].
Proof. vm_compute. reflexivity. Qed.
